(** * update_genesis.py: a shallow embedding and its properties

    The script patches the genesis files of a NEAR localnet: it appends an
    [Account] and an [AccessKey] record for each of three MPC node accounts
    that the file does not have yet, and deducts the balance handed out from
    the treasury account ["near"].

    Layout of this file:
    - [json]: the values [json.load] produces;
    - the Python primitives the script applies to them (subscript, [in],
      iteration, [append], [int], [str]), each with the exception it raises;
    - a state-and-exception monad over the file system and standard output;
    - [update_genesis] and the module-level loop [main];
    - observation functions used in the statements, then the theorems. *)

From Stdlib Require Import ZArith Ascii String DecimalString DecimalPos DecimalZ Floats.
From stdpp Require Import base option list gmap strings.

Local Open Scope Z_scope.

(** ** JSON values as the [json] module of Python decodes them

    An object becomes a [dict], which keeps insertion order: an association
    list.  A number without fraction or exponent becomes an [int] (unbounded),
    any other number a [float] (binary64). *)

#[warnings="-register-all"]
Inductive json : Type :=
| JNull
| JBool (b : bool)
| JInt (n : Z)
| JFloat (x : float)
| JStr (s : string)
| JArr (items : list json)
| JObj (members : list (string * json)).

(** ** Dictionaries: association lists read at the first binding of a key *)

Section Dict.
Context {V : Type}.

Fixpoint dict_get (k : string) (d : list (string * V)) : option V :=
  match d with
  | [] => None
  | (k', v) :: d' => if String.eqb k k' then Some v else dict_get k d'
  end.

Definition dict_has (k : string) (d : list (string * V)) : bool :=
  match dict_get k d with Some _ => true | None => false end.

(** [d[k] = v]: an existing key keeps its position, a new key goes last. *)
Fixpoint dict_set (k : string) (v : V) (d : list (string * V)) : list (string * V) :=
  match d with
  | [] => [(k, v)]
  | (k', v') :: d' =>
      if String.eqb k k' then (k', v) :: d' else (k', v') :: dict_set k v d'
  end.
End Dict.

(** ** Exceptions and results *)

Inductive pyerr : Type :=
| KeyError
| TypeError
| AttributeError
| ValueError
| OverflowError
| JSONDecodeError
| FileNotFoundError.

Inductive result (A : Type) : Type :=
| Ok (a : A)
| Raise (e : pyerr).
Arguments Ok {A} a.
Arguments Raise {A} e.

Definition rbind {A B} (r : result A) (k : A → result B) : result B :=
  match r with
  | Ok a => k a
  | Raise e => Raise e
  end.

Declare Scope result_scope.
Delimit Scope result_scope with res.
Notation "'let?' x := r 'in' k" := (rbind r (fun x => k))
  (at level 10, x name, r at level 100, k at level 200) : result_scope.
Local Open Scope result_scope.

(** ** Python primitives on decoded JSON *)

(** [s1 in s2] on strings: substring test. *)
Fixpoint str_contains (p s : string) : bool :=
  String.prefix p s ||
  match s with
  | EmptyString => false
  | String _ s' => str_contains p s'
  end.

(** [v == 'k']: a [str] is equal to a [str] with the same characters only. *)
Definition eq_str (v : json) (k : string) : bool :=
  match v with
  | JStr s => String.eqb s k
  | _ => false
  end.

(** [o[k]] for a string [k]. *)
Definition getitem (o : json) (k : string) : result json :=
  match o with
  | JObj d =>
      match dict_get k d with
      | Some v => Ok v
      | None => Raise KeyError
      end
  | _ => Raise TypeError
  end.

(** [o[k] = v] for a string [k]. *)
Definition setitem (o : json) (k : string) (v : json) : result json :=
  match o with
  | JObj d => Ok (JObj (dict_set k v d))
  | _ => Raise TypeError
  end.

(** [k in o] for a string [k]: key test on a dict, element test on a list,
    substring test on a str; other values are not containers. *)
Definition contains (k : string) (o : json) : result bool :=
  match o with
  | JObj d => Ok (dict_has k d)
  | JArr l => Ok (existsb (fun v => eq_str v k) l)
  | JStr s => Ok (str_contains k s)
  | _ => Raise TypeError
  end.

Fixpoint chars (s : string) : list json :=
  match s with
  | EmptyString => []
  | String a s' => JStr (String a EmptyString) :: chars s'
  end.

(** [for r in o]: the elements of a list, the keys of a dict, the characters
    of a str (bytes here, code points in Python). *)
Definition iter (o : json) : result (list json) :=
  match o with
  | JArr l => Ok l
  | JObj d => Ok (map (fun kv => JStr (fst kv)) d)
  | JStr s => Ok (chars s)
  | _ => Raise TypeError
  end.

(** [o.append(x)]: only a list has the method. *)
Definition append (o : json) (x : json) : result json :=
  match o with
  | JArr l => Ok (JArr (l ++ [x]))
  | _ => Raise AttributeError
  end.

(** *** [int] and [str] *)

Definition is_space (a : ascii) : bool :=
  let n := nat_of_ascii a in
  ((9 <=? n) && (n <=? 13) || (28 <=? n) && (n <=? 31) || (n =? 32))%nat.

Definition is_digit (a : ascii) : bool :=
  let n := nat_of_ascii a in ((48 <=? n) && (n <=? 57))%nat.

Fixpoint lstrip (s : string) : string :=
  match s with
  | EmptyString => EmptyString
  | String a s' => if is_space a then lstrip s' else s
  end.

Fixpoint rstrip (s : string) : string :=
  match s with
  | EmptyString => EmptyString
  | String a s' =>
      match rstrip s' with
      | EmptyString => if is_space a then EmptyString else String a EmptyString
      | t => String a t
      end
  end.

(** Digits with single underscores between them; [after_digit] tells whether
    the previous character was a digit.  Returns the digits alone. *)
Fixpoint digit_group (after_digit : bool) (s : string) : option string :=
  match s with
  | EmptyString => if after_digit then Some EmptyString else None
  | String a s' =>
      if is_digit a then String a <$> digit_group true s'
      else if Ascii.eqb a "_" && after_digit then digit_group false s'
      else None
  end.

Definition split_sign (s : string) : bool * string :=
  match s with
  | String "-" s' => (true, s')
  | String "+" s' => (false, s')
  | _ => (false, s)
  end.

(** [int(s)] in base 10 for an ASCII [s]: surrounding white space, an optional
    sign, decimal digits with optional single underscores.  CPython also
    takes Unicode spaces and digits, which are rejected here, and by default
    refuses more than 4300 digits, which is not modelled. *)
Definition int_of_str (s : string) : option Z :=
  let '(neg, body) := split_sign (rstrip (lstrip s)) in
  ds ← digit_group false body;
  d ← NilEmpty.uint_of_string ds;
  Some (if neg then Z.of_int (Decimal.Neg d) else Z.of_int (Decimal.Pos d)).

(** [int(x)] for a float: truncation toward zero. *)
Definition int_of_float (x : float) : result Z :=
  match Prim2SF x with
  | S754_zero _ => Ok 0
  | S754_finite s m e =>
      let a := Z.shiftl (Z.pos m) e in Ok (if s then - a else a)
  | S754_infinity _ => Raise OverflowError
  | S754_nan => Raise ValueError
  end.

Definition py_int (v : json) : result Z :=
  match v with
  | JInt n => Ok n
  | JBool b => Ok (if b then 1 else 0)
  | JFloat x => int_of_float x
  | JStr s =>
      match int_of_str s with
      | Some n => Ok n
      | None => Raise ValueError
      end
  | JNull | JArr _ | JObj _ => Raise TypeError
  end.

(** [str(n)] for an int: the decimal digits without leading zeros, after a
    minus sign for a negative number (the same default limit of 4300 digits
    is not modelled). *)
Definition py_str (n : Z) : string :=
  NilZero.string_of_int (Z.to_int n).

(** ** The set [existing_ids]

    The script only asks whether a [str] is in the set, and a [str] is equal
    to no value of another type, so the model keeps the [str] members.  Adding
    a list or a dict raises (unhashable); adding another hashable value leaves
    the [str] members as they are. *)
Definition set_add (v : json) (ids : gset string) : result (gset string) :=
  match v with
  | JStr s => Ok ({[ s ]} ∪ ids)
  | JNull | JBool _ | JInt _ | JFloat _ => Ok ids
  | JArr _ | JObj _ => Raise TypeError
  end.

(** ** The world: files and standard output

    A file is represented by what [json.load] does on its text: it raises
    [JSONDecodeError] or yields a value.  [json.dump] writes a text that
    loads back to the value dumped, so a file written by the script is the
    [Doc] of that value.  Every path bound in [files] is a regular file that
    can be read and written. *)

Inductive fcontent : Type :=
| NotJson
| Doc (data : json).

Record world : Type := World {
  files : gmap string fcontent;
  stdout : list string
}.

Definition M (A : Type) : Type := world → result A * world.

Definition ret {A} (a : A) : M A := fun w => (Ok a, w).

Definition bind {A B} (m : M A) (k : A → M B) : M B :=
  fun w =>
    match m w with
    | (Ok a, w') => k a w'
    | (Raise e, w') => (Raise e, w')
    end.

Definition lift {A} (r : result A) : M A := fun w => (r, w).

Declare Scope prog_scope.
Delimit Scope prog_scope with prog.
Notation "'let!' x := m 'in' k" := (bind m (fun x => k))
  (at level 10, x name, m at level 100, k at level 200) : prog_scope.
Notation "'let!' ' p := m 'in' k" := (bind m (fun x => match x with p => k end))
  (at level 10, p pattern, m at level 100, k at level 200) : prog_scope.
Local Open Scope prog_scope.

Definition print (line : string) : M unit :=
  fun w => (Ok tt, World (files w) (stdout w ++ [line])).

(** [os.path.exists(path)] *)
Definition path_exists (path : string) : M bool :=
  fun w => (Ok (bool_decide (is_Some (files w !! path))), w).

(** [with open(path, 'r') as f: data = json.load(f)] *)
Definition json_load (path : string) : M json :=
  fun w =>
    match files w !! path with
    | Some (Doc data) => (Ok data, w)
    | Some NotJson => (Raise JSONDecodeError, w)
    | None => (Raise FileNotFoundError, w)
    end.

(** [with open(path, 'w') as f: json.dump(data, f, indent=2)] *)
Definition json_dump (path : string) (data : json) : M unit :=
  fun w => (Ok tt, World (<[path := Doc data]> (files w)) (stdout w)).

(** ** The script's constants *)

Definition GENESIS_PATHS : list string :=
  [ "/home/ubuntu/.near/localnet/node0/genesis.json";
    "/home/ubuntu/.near/localnet/node1/genesis.json";
    "/home/ubuntu/.near/localnet/node2/genesis.json";
    "/home/ubuntu/.near/localnet/node3/genesis.json" ].

(** An entry of [NEW_ACCOUNTS]: the dict literal [{"id": .., "pk": ..}]. *)
Record new_account : Type := NewAccount {
  acc_id : string;
  acc_pk : string
}.

Definition NEW_ACCOUNTS : list new_account :=
  [ NewAccount "mpc-node-0.node0" "ed25519:69CETJnEyCTaQ7B3PxEWrsMWpoufayKFhHWN15HQ8smR";
    NewAccount "mpc-node-1.node0" "ed25519:93pcUSau23m7imF94gny2R9c8UDvGHGmiVFKr7j4pkjP";
    NewAccount "mpc-node-2.node0" "ed25519:5CJ4d6byRNacX5QNaASHGXmURtWE48xARnNGWAwKRiWg" ].

Definition AMOUNT : string := "10000000000000000000000000".

(** ** update_genesis *)

(** The body of the first loop:
    [if 'Account' in r: existing_ids.add(r['Account']['account_id'])]. *)
Definition scan_record (existing_ids : gset string) (r : json) : result (gset string) :=
  let? b := contains "Account" r in
  if b then
    let? a := getitem r "Account" in
    let? i := getitem a "account_id" in
    set_add i existing_ids
  else Ok existing_ids.

Fixpoint scan_records (items : list json) (existing_ids : gset string)
  : result (gset string) :=
  match items with
  | [] => Ok existing_ids
  | r :: rest =>
      let? ids := scan_record existing_ids r in
      scan_records rest ids
  end.

(** The two dict literals appended for a new account. *)
Definition account_record (acc : new_account) : json :=
  JObj [("Account", JObj [
    ("account_id", JStr (acc_id acc));
    ("account", JObj [
      ("amount", JStr AMOUNT);
      ("locked", JStr "0");
      ("code_hash", JStr "11111111111111111111111111111111");
      ("storage_usage", JInt 0);
      ("version", JStr "V1") ]) ])].

Definition access_key_record (acc : new_account) : json :=
  JObj [("AccessKey", JObj [
    ("account_id", JStr (acc_id acc));
    ("public_key", JStr (acc_pk acc));
    ("access_key", JObj [
      ("nonce", JInt 0);
      ("permission", JStr "FullAccess") ]) ])].

(** The loop over [NEW_ACCOUNTS].  [records] is the list that
    [data['records']] refers to, threaded through the appends. *)
Fixpoint add_accounts (accs : list new_account) (existing_ids : gset string)
    (records : json) (added_balance : Z) : M (json * Z) :=
  match accs with
  | [] => ret (records, added_balance)
  | acc :: accs' =>
      if bool_decide (acc_id acc ∈ existing_ids) then
        let! _ := print ("  Account " +:+ acc_id acc +:+ " already exists, skipping") in
        add_accounts accs' existing_ids records added_balance
      else
        let! _ := print ("  Adding " +:+ acc_id acc) in
        let! records := lift (append records (account_record acc)) in
        let! records := lift (append records (access_key_record acc)) in
        let! amount := lift (py_int (JStr AMOUNT)) in
        add_accounts accs' existing_ids records (added_balance + amount)
  end.

(** ['Account' in r and r['Account']['account_id'] == 'near'] *)
Definition is_treasury (r : json) : result bool :=
  let? b := contains "Account" r in
  if b then
    let? a := getitem r "Account" in
    let? i := getitem a "account_id" in
    Ok (eq_str i "near")
  else Ok false.

(** The three statements under the [if] of the treasury loop, on the record
    [r]; the result is [r] after the assignment.  The assignment changes the
    innermost dict, which the two enclosing dicts refer to: the model writes
    it back into them. *)
Definition deduct (r : json) (added_balance : Z) : result json :=
  let? a := getitem r "Account" in
  let? acc := getitem a "account" in
  let? amt := getitem acc "amount" in
  let? current := py_int amt in
  let new_amount := current - added_balance in
  let? acc' := setitem acc "amount" (JStr (py_str new_amount)) in
  let? a' := setitem a "account" acc' in
  setitem r "Account" a'.

(** The treasury loop: the first matching record is changed, then [break]. *)
Fixpoint deduct_loop (items : list json) (added_balance : Z) : M (list json) :=
  match items with
  | [] => ret []
  | r :: rest =>
      let! t := lift (is_treasury r) in
      if t then
        let! r' := lift (deduct r added_balance) in
        let! _ := print ("  Deducted " +:+ py_str added_balance +:+ " from 'near' account") in
        ret (r' :: rest)
      else
        let! rest' := deduct_loop rest added_balance in
        ret (r :: rest')
  end.

(** [for r in records: ...]: what is iterated over a dict or a str are
    temporaries, so only a list can come out changed. *)
Definition deduct_treasury (records : json) (added_balance : Z) : M json :=
  let! items := lift (iter records) in
  let! items' := deduct_loop items added_balance in
  ret (match records with JArr _ => JArr items' | _ => records end).

(** [data] once the list it holds under ['records'] has become [records]. *)
Definition with_records (data : json) (records : json) : json :=
  match data with
  | JObj d => JObj (dict_set "records" records d)
  | _ => data
  end.

Definition update_genesis (path : string) : M unit :=
  let! present := path_exists path in
  if negb present then
    print ("Skipping " +:+ path +:+ " (not found)")
  else
    let! _ := print ("Updating " +:+ path +:+ "...") in
    let! data := json_load path in
    let! records := lift (getitem data "records") in
    let! items := lift (iter records) in
    let! existing_ids := lift (scan_records items ∅) in
    let! '(records, added_balance) := add_accounts NEW_ACCOUNTS existing_ids records 0 in
    let! records := deduct_treasury records added_balance in
    let! _ := json_dump path (with_records data records) in
    print "  Done.".

(** [for p in GENESIS_PATHS: update_genesis(p)]: nothing catches an
    exception, so the first one ends the loop and the script. *)
Fixpoint run_paths (paths : list string) : M unit :=
  match paths with
  | [] => ret tt
  | p :: rest =>
      let! _ := update_genesis p in
      run_paths rest
  end.

Definition main : M unit := run_paths GENESIS_PATHS.

(** ** Observations on documents, used to state the properties *)

(** The list under ['records'], when the document has one. *)
Definition records_of (data : json) : list json :=
  match data with
  | JObj d =>
      match dict_get "records" d with
      | Some (JArr l) => l
      | _ => []
      end
  | _ => []
  end.

(** The [account_id] of an [Account] record. *)
Definition account_id_of (r : json) : option string :=
  match r with
  | JObj dr =>
      match dict_get "Account" dr with
      | Some (JObj da) =>
          match dict_get "account_id" da with
          | Some (JStr s) => Some s
          | _ => None
          end
      | _ => None
      end
  | _ => None
  end.

Definition account_ids (l : list json) : list string := omap account_id_of l.

(** [r['Account']['account']['amount']], when all three keys are there. *)
Definition amount_of (r : json) : option json :=
  match r with
  | JObj dr =>
      match dict_get "Account" dr with
      | Some (JObj da) =>
          match dict_get "account" da with
          | Some (JObj dacc) => dict_get "amount" dacc
          | _ => None
          end
      | _ => None
      end
  | _ => None
  end.

(** [r] with [v] under [r['Account']['account']['amount']] and nothing else
    changed. *)
Definition with_amount (r : json) (v : json) : json :=
  match r with
  | JObj dr =>
      match dict_get "Account" dr with
      | Some (JObj da) =>
          match dict_get "account" da with
          | Some (JObj dacc) =>
              JObj (dict_set "Account"
                      (JObj (dict_set "account" (JObj (dict_set "amount" v dacc)) da)) dr)
          | _ => r
          end
      | _ => r
      end
  | _ => r
  end.

Definition is_near (r : json) : bool :=
  match account_id_of r with
  | Some s => String.eqb s "near"
  | None => false
  end.

(** Position and content of the first [Account] record of ["near"]. *)
Definition treasury (l : list json) : option (nat * json) :=
  list_find (fun r => is_near r = true) l.

(** The balance an [Account] record holds, as [int] reads its amount. *)
Definition balance (r : json) : option Z :=
  amt ← amount_of r;
  match py_int amt with
  | Ok n => Some n
  | Raise _ => None
  end.

Definition treasury_balance (data : json) : option Z :=
  ir ← treasury (records_of data); balance ir.2.

(** The configured accounts that a list of records does not have yet. *)
Definition missing (l : list json) : list new_account :=
  filter (fun acc => acc_id acc ∉ account_ids l) NEW_ACCOUNTS.

(** The records appended for a list of accounts. *)
Definition new_records (accs : list new_account) : list json :=
  flat_map (fun acc => [account_record acc; access_key_record acc]) accs.

(** *** Well-formed documents

    A decimal amount is a non-empty run of ASCII digits, with an optional
    minus sign.  A record is an object; if it is an [Account] record, it
    has a string [account_id] and an [account] object with a decimal
    [amount].  A document is an object with a list of records under
    ['records']. *)

Fixpoint all_digits (s : string) : bool :=
  match s with
  | EmptyString => true
  | String a s' => is_digit a && all_digits s'
  end.

Definition nonempty (s : string) : bool :=
  match s with EmptyString => false | _ => true end.

Definition wf_amount (s : string) : bool :=
  match s with
  | String "-" s' => nonempty s' && all_digits s'
  | _ => nonempty s && all_digits s
  end.

Definition wf_record (r : json) : bool :=
  match r with
  | JObj dr =>
      match dict_get "Account" dr with
      | None => true
      | Some (JObj da) =>
          match dict_get "account_id" da, dict_get "account" da with
          | Some (JStr _), Some (JObj dacc) =>
              match dict_get "amount" dacc with
              | Some (JStr s) => wf_amount s
              | _ => false
              end
          | _, _ => false
          end
      | Some _ => false
      end
  | _ => false
  end.

Definition wf_doc (data : json) : bool :=
  match data with
  | JObj d =>
      match dict_get "records" d with
      | Some (JArr l) => forallb wf_record l
      | _ => false
      end
  | _ => false
  end.

(** What makes [update_genesis] fail before it looks at any record. *)
Definition load_error (c : fcontent) : option pyerr :=
  match c with
  | NotJson => Some JSONDecodeError
  | Doc (JObj d) => if dict_has "records" d then None else Some KeyError
  | Doc _ => Some TypeError
  end.

(** The line printed for a configured account. *)
Definition account_line (l : list json) (acc : new_account) : string :=
  if bool_decide (acc_id acc ∈ account_ids l)
  then "  Account " +:+ acc_id acc +:+ " already exists, skipping"
  else "  Adding " +:+ acc_id acc.

(** *** The effect of a run on a well-formed document, as pure functions

    These restate the three loops without exceptions and output; the lemmas
    of the next part show that [update_genesis] computes them on every
    well-formed document. *)

(** The shape of a well-formed record. *)
Inductive record_view : json → Prop :=
| view_other dr :
    dict_get "Account" dr = None →
    record_view (JObj dr)
| view_account dr da i dacc s :
    dict_get "Account" dr = Some (JObj da) →
    dict_get "account_id" da = Some (JStr i) →
    dict_get "account" da = Some (JObj dacc) →
    dict_get "amount" dacc = Some (JStr s) →
    wf_amount s = true →
    record_view (JObj dr).

(** The treasury record after [added] has been taken from it. *)
Definition adjust_record (added : Z) (r : json) : json :=
  match balance r with
  | Some a => with_amount r (JStr (py_str (a - added)))
  | None => r
  end.

Fixpoint adjust (added : Z) (l : list json) : list json :=
  match l with
  | [] => []
  | r :: rest =>
      if is_near r then adjust_record added r :: rest
      else r :: adjust added rest
  end.

(** [int(AMOUNT)] *)
Definition BALANCE : Z := 10000000000000000000000000.

(** What a run hands out: [BALANCE] for each account it adds. *)
Definition handed_out (l : list json) : Z :=
  Z.of_nat (length (missing l)) * BALANCE.

Definition patched (data : json) : json :=
  let l := records_of data in
  with_records data (JArr (adjust (handed_out l) l ++ new_records (missing l))).

Definition deducted_line (added : Z) : string :=
  "  Deducted " +:+ py_str added +:+ " from 'near' account".

Definition run_log (path : string) (data : json) : list string :=
  let l := records_of data in
  ["Updating " +:+ path +:+ "..."] ++
  map (account_line l) NEW_ACCOUNTS ++
  (if existsb is_near l then [deducted_line (handed_out l)] else []) ++
  ["  Done."].

(** *** Records on which a run raises [KeyError] *)

(** An [Account] object without the key ['account_id']. *)
Definition lacks_account_id (r : json) : bool :=
  match r with
  | JObj dr =>
      match dict_get "Account" dr with
      | Some (JObj da) => negb (dict_has "account_id" da)
      | _ => false
      end
  | _ => false
  end.

(** An [Account] record of ["near"] whose [account] object has no key
    ['amount']. *)
Definition near_lacks_amount (r : json) : bool :=
  is_near r &&
  match r with
  | JObj dr =>
      match dict_get "Account" dr with
      | Some (JObj da) =>
          match dict_get "account" da with
          | Some (JObj dacc) => negb (dict_has "amount" dacc)
          | _ => false
          end
      | _ => false
      end
  | _ => false
  end.

(** *** Sample documents *)

Definition account_of (i amount : string) : json :=
  JObj [("Account", JObj [
    ("account_id", JStr i);
    ("account", JObj [
      ("amount", JStr amount);
      ("locked", JStr "0");
      ("code_hash", JStr "11111111111111111111111111111111");
      ("storage_usage", JInt 182);
      ("version", JStr "V1") ]) ])].

Definition contract_record : json :=
  JObj [("Contract", JObj [
    ("account_id", JStr "near"); ("code", JStr "AGFzbQ==") ])].

(** A genesis document with a record of another variant, the treasury and
    one of the three configured accounts. *)
Definition sample_doc : json :=
  JObj [
    ("protocol_version", JInt 73);
    ("chain_id", JStr "localnet");
    ("records", JArr [
       contract_record;
       account_of "near" "1000000000000000000000000000";
       account_of "mpc-node-1.node0" "10000000000000000000000000" ]);
    ("total_supply", JStr "1010000000000000000000000000") ].

(** A treasury that cannot pay for two accounts. *)
Definition poor_doc : json :=
  JObj [("records", JArr [
    account_of "mpc-node-1.node0" "10000000000000000000000000";
    account_of "near" "5" ])].

Definition no_treasury_doc : json :=
  JObj [("records", JArr [
    contract_record;
    account_of "test.near" "1000000000000000000000000000" ])].

(** An [Account] object without ['account_id']. *)
Definition anonymous_doc : json :=
  JObj [("records", JArr [
    contract_record;
    JObj [("Account", JObj [("account", JObj [("amount", JStr "1")])])] ])].

(** A treasury without ['amount']. *)
Definition no_amount_doc : json :=
  JObj [("records", JArr [
    contract_record;
    JObj [("Account", JObj [
      ("account_id", JStr "near");
      ("account", JObj [("locked", JStr "0")]) ])] ])].

Definition node (n : string) : string :=
  "/home/ubuntu/.near/localnet/node" +:+ n +:+ "/genesis.json".

Definition sample_world : world :=
  World {[ node "0" := Doc sample_doc ]} [].

(** The first configured file holds [{}], the second a good document. *)
Definition broken_world : world :=
  World {[ node "0" := Doc (JObj []); node "1" := Doc sample_doc ]} [].

(** *** Documents on which a run succeeds

    The first loop passes a record that is an object without ['Account'], or
    with an ['Account'] object that has a hashable ['account_id']; it also
    passes a list or a string in which ['Account'] does not occur.  The
    treasury loop needs an amount that [int] accepts in the first record of
    ["near"], and nothing of the records after it. *)

Definition hashable (v : json) : bool :=
  match v with
  | JArr _ | JObj _ => false
  | _ => true
  end.

Definition scannable (r : json) : bool :=
  match r with
  | JObj dr =>
      match dict_get "Account" dr with
      | None => true
      | Some (JObj da) =>
          match dict_get "account_id" da with
          | Some v => hashable v
          | None => false
          end
      | Some _ => false
      end
  | JArr items => negb (existsb (fun v => eq_str v "Account") items)
  | JStr s => negb (str_contains "Account" s)
  | _ => false
  end.

Definition payable (l : list json) : bool :=
  match treasury l with
  | Some (_, r) => bool_decide (is_Some (balance r))
  | None => true
  end.

Definition runnable (data : json) : bool :=
  match data with
  | JObj d =>
      match dict_get "records" d with
      | Some (JArr l) => forallb scannable l && payable l
      | _ => false
      end
  | _ => false
  end.

(** *** Further observations *)

(** The sum of the balances held by the records of a list. *)
Definition total_balance (l : list json) : Z :=
  foldr (fun r acc => default 0 (balance r) + acc) 0 l.

(** The [account_id] of an [AccessKey] record. *)
Definition access_key_id_of (r : json) : option string :=
  match r with
  | JObj dr =>
      match dict_get "AccessKey" dr with
      | Some (JObj da) =>
          match dict_get "account_id" da with
          | Some (JStr s) => Some s
          | _ => None
          end
      | _ => None
      end
  | _ => None
  end.

Definition access_key_ids (l : list json) : list string := omap access_key_id_of l.

(** What a successful run makes of a file. *)
Definition patch_file (c : fcontent) : fcontent :=
  match c with
  | Doc data => Doc (patched data)
  | NotJson => NotJson
  end.

(** A computation that leaves the files as they are, whatever it returns. *)
Definition keeps_files {A} (m : M A) : Prop :=
  ∀ w, files (m w).2 = files w.

(** *** More sample documents *)

(** Records that are not objects, an account with a number for its id and a
    treasury whose amount is a JSON number. *)
Definition loose_doc : json :=
  JObj [("records", JArr [
    JStr "genesis of the localnet";
    JArr [JInt 1; JInt 2];
    JObj [("Account", JObj [("account_id", JInt 7)])];
    JObj [("Account", JObj [
      ("account_id", JStr "near");
      ("account", JObj [("amount", JInt 50000000000000000000000000)]) ])] ])].

(** Every configured account is there; the treasury amount has leading
    zeros. *)
Definition padded_doc : json :=
  JObj [("records", JArr [
    account_of "mpc-node-0.node0" "10000000000000000000000000";
    account_of "mpc-node-1.node0" "10000000000000000000000000";
    account_of "mpc-node-2.node0" "10000000000000000000000000";
    account_of "near" "0042" ])].

(** An access key of a configured account whose [Account] record is
    missing. *)
Definition orphan_key_doc : json :=
  JObj [("records", JArr [
    account_of "near" "1000000000000000000000000000";
    access_key_record (NewAccount "mpc-node-0.node0"
      "ed25519:69CETJnEyCTaQ7B3PxEWrsMWpoufayKFhHWN15HQ8smR") ])].

(** All four configured files, the last one without a treasury. *)
Definition full_world : world :=
  World {[ node "0" := Doc sample_doc; node "1" := Doc poor_doc;
           node "2" := Doc padded_doc; node "3" := Doc no_treasury_doc;
           "/tmp/notes.txt" := NotJson ]} [].

(** * Properties *)

(** ** [int] and [str] on decimal strings *)

Example int_of_str_forms :
  int_of_str " +1_000 " = Some 1000 ∧ int_of_str "-0012" = Some (-12) ∧
  int_of_str "" = None ∧ int_of_str "-" = None ∧ int_of_str "- 1" = None ∧
  int_of_str "1__0" = None ∧ int_of_str "_1" = None ∧ int_of_str "1_" = None ∧
  int_of_str "1 2" = None ∧ int_of_str "1.0" = None.
Proof. repeat split; reflexivity. Qed.

Example py_str_forms :
  py_str 0 = "0" ∧ py_str (-120) = "-120" ∧
  py_str (10 ^ 25) = "10000000000000000000000000".
Proof. repeat split; reflexivity. Qed.

Example py_int_forms :
  py_int (JFloat 2.75) = Ok 2 ∧ py_int (JFloat (-2.75)) = Ok (-2) ∧
  py_int (JFloat infinity) = Raise OverflowError ∧
  py_int (JFloat nan) = Raise ValueError ∧
  py_int (JBool true) = Ok 1 ∧ py_int JNull = Raise TypeError.
Proof. repeat split; reflexivity. Qed.

Section Decimal.

Lemma is_digit_cases a :
  is_digit a = true →
  In a ["0"; "1"; "2"; "3"; "4"; "5"; "6"; "7"; "8"; "9"]%char.
Proof.
  destruct a as [[] [] [] [] [] [] [] []]; vm_compute; intros H;
    try discriminate H; tauto.
Qed.

(** A digit is neither white space, nor a sign, nor an underscore, and the
    digit parser of the standard library takes it. *)
Lemma digit_plain a :
  is_digit a = true →
  is_space a = false ∧ Ascii.eqb a "_" = false ∧
  Ascii.eqb a "-" = false ∧ Ascii.eqb a "+" = false ∧
  ∀ d, is_Some (uint_of_char a (Some d)).
Proof.
  intros H%is_digit_cases. simpl in H.
  repeat (destruct H as [<- | H]); try contradiction;
    (repeat split; try reflexivity; intros d; eexists; reflexivity).
Qed.

Lemma lstrip_digits s : all_digits s = true → lstrip s = s.
Proof.
  destruct s as [|a s]; [done|]. simpl. intros [Ha _]%andb_prop.
  by destruct (digit_plain a Ha) as [-> _].
Qed.

Lemma rstrip_digits s : all_digits s = true → rstrip s = s.
Proof.
  induction s as [|a s IH]; [done|]. simpl. intros [Ha Hs]%andb_prop.
  rewrite (IH Hs). destruct (digit_plain a Ha) as [-> _]. by destruct s.
Qed.

Lemma split_sign_digits s : all_digits s = true → split_sign s = (false, s).
Proof.
  destruct s as [|a s]; [done|]. simpl. intros [Ha _]%andb_prop.
  destruct (digit_plain a Ha) as (_ & _ & Hm & Hp & _).
  apply Ascii.eqb_neq in Hm, Hp. unfold split_sign.
  destruct a as [[] [] [] [] [] [] [] []]; congruence.
Qed.

Lemma digit_group_digits b s :
  all_digits s = true → b || nonempty s = true → digit_group b s = Some s.
Proof.
  revert b. induction s as [|a s IH]; intros b Hs Hb.
  - simpl in *. rewrite orb_false_r in Hb. by rewrite Hb.
  - simpl in *. apply andb_prop in Hs as [Ha Hs]. rewrite Ha.
    by rewrite (IH true Hs eq_refl).
Qed.

Lemma uint_of_string_digits s :
  all_digits s = true → is_Some (NilEmpty.uint_of_string s).
Proof.
  induction s as [|a s IH]; [by eexists|]. simpl. intros [Ha Hs]%andb_prop.
  destruct (IH Hs) as [d ->]. by apply digit_plain.
Qed.

Lemma all_digits_of_uint d : all_digits (NilEmpty.string_of_uint d) = true.
Proof. induction d; simpl; auto. Qed.

Lemma nonempty_of_uint d :
  d ≠ Decimal.Nil → nonempty (NilEmpty.string_of_uint d) = true.
Proof. by destruct d. Qed.

(** [int] on an unsigned and on a negated run of digits. *)
Lemma int_of_str_unsigned s :
  nonempty s = true → all_digits s = true →
  int_of_str s = d ← NilEmpty.uint_of_string s; Some (Z.of_uint d).
Proof.
  intros Hn Hs. unfold int_of_str.
  rewrite lstrip_digits, rstrip_digits, split_sign_digits by done.
  rewrite digit_group_digits by (done || by rewrite Hn). done.
Qed.

Lemma int_of_str_negated s :
  nonempty s = true → all_digits s = true →
  int_of_str (String "-" s) = d ← NilEmpty.uint_of_string s; Some (- Z.of_uint d).
Proof.
  intros Hn Hs. unfold int_of_str.
  change (lstrip (String "-" s)) with (String "-" s).
  assert (rstrip (String "-" s) = String "-" s) as ->.
  { simpl. rewrite rstrip_digits by done. by destruct s. }
  simpl. rewrite digit_group_digits by (done || by rewrite Hn). done.
Qed.

Lemma py_str_pos p : py_str (Z.pos p) = NilEmpty.string_of_uint (Pos.to_uint p).
Proof.
  unfold py_str. simpl. pose proof (DecimalPos.Unsigned.to_uint_nonnil p).
  by destruct (Pos.to_uint p).
Qed.

Lemma py_str_neg p :
  py_str (Z.neg p) = String "-" (NilEmpty.string_of_uint (Pos.to_uint p)).
Proof.
  unfold py_str. simpl. pose proof (DecimalPos.Unsigned.to_uint_nonnil p).
  by destruct (Pos.to_uint p).
Qed.

Lemma wf_amount_unsigned s :
  nonempty s = true → all_digits s = true → wf_amount s = true.
Proof.
  destruct s as [|a s]; [done|]. intros _ Hd.
  pose proof Hd as [Ha _]%andb_prop.
  destruct (digit_plain a Ha) as (_ & _ & Hm & _). unfold wf_amount.
  destruct a as [[] [] [] [] [] [] [] []];
    first [ discriminate Hm | exact Hd ].
Qed.

(** [str] writes a decimal amount... *)
Lemma wf_amount_py_str n : wf_amount (py_str n) = true.
Proof.
  destruct n as [|p|p]; [done| |].
  - rewrite py_str_pos. apply wf_amount_unsigned.
    + apply nonempty_of_uint, DecimalPos.Unsigned.to_uint_nonnil.
    + apply all_digits_of_uint.
  - rewrite py_str_neg. unfold wf_amount.
    by rewrite all_digits_of_uint, nonempty_of_uint
      by apply DecimalPos.Unsigned.to_uint_nonnil.
Qed.

(** ... and [int] reads back the number written. *)
Lemma int_of_str_py_str n : int_of_str (py_str n) = Some n.
Proof.
  destruct n as [|p|p]; [done| |].
  - rewrite py_str_pos, int_of_str_unsigned, NilEmpty.usu;
      [| apply nonempty_of_uint, DecimalPos.Unsigned.to_uint_nonnil
       | apply all_digits_of_uint ].
    simpl. f_equal. apply (DecimalZ.of_to (Z.pos p)).
  - rewrite py_str_neg, int_of_str_negated, NilEmpty.usu;
      [| apply nonempty_of_uint, DecimalPos.Unsigned.to_uint_nonnil
       | apply all_digits_of_uint ].
    simpl. f_equal. apply (DecimalZ.of_to (Z.neg p)).
Qed.

Lemma py_int_py_str n : py_int (JStr (py_str n)) = Ok n.
Proof. simpl. by rewrite int_of_str_py_str. Qed.

(** [int] accepts every decimal amount. *)
Lemma int_of_str_wf s : wf_amount s = true → is_Some (int_of_str s).
Proof.
  intros Hs.
  assert (∀ t, nonempty t = true → all_digits t = true →
               is_Some (int_of_str t)) as Hu.
  { intros t Hn Ht. rewrite int_of_str_unsigned by done.
    by destruct (uint_of_string_digits t Ht) as [d ->]. }
  destruct s as [|a s]; [done|].
  destruct (Ascii.eqb a "-") eqn:Ha.
  - apply Ascii.eqb_eq in Ha as ->. simpl in Hs.
    apply andb_prop in Hs as [Hn Hd].
    rewrite int_of_str_negated by done.
    by destruct (uint_of_string_digits s Hd) as [d ->].
  - apply Ascii.eqb_neq in Ha.
    assert (nonempty (String a s) && all_digits (String a s) = true) as H.
    { revert Hs. unfold wf_amount.
      destruct a as [[] [] [] [] [] [] [] []];
        first [ congruence | exact (fun H => H) ]. }
    apply andb_prop in H as [Hn Hd]. by apply Hu.
Qed.

End Decimal.

(** ** Dictionaries *)

Section DictFacts.
Context {V : Type}.
Implicit Types (d : list (string * V)) (k : string) (v : V).

Lemma dict_get_set_eq k v d : dict_get k (dict_set k v d) = Some v.
Proof.
  induction d as [|[k' v'] d IH]; simpl.
  - by rewrite String.eqb_refl.
  - destruct (String.eqb k k') eqn:E; simpl; rewrite E; [done | apply IH].
Qed.

Lemma dict_get_set_ne k k' v d :
  k ≠ k' → dict_get k' (dict_set k v d) = dict_get k' d.
Proof.
  intros Hne.
  assert (String.eqb k' k = false) as Hb by (apply String.eqb_neq; congruence).
  induction d as [|[k0 v0] d IH]; simpl.
  - by rewrite Hb.
  - destruct (String.eqb k k0) eqn:E; simpl.
    + apply String.eqb_eq in E as <-. by rewrite Hb.
    + by rewrite IH.
Qed.

(** Storing the value a key already has changes nothing. *)
Lemma dict_set_same k v d : dict_get k d = Some v → dict_set k v d = d.
Proof.
  induction d as [|[k' v'] d IH]; simpl; [done|].
  destruct (String.eqb k k'); [by intros [= ->] | by intros ->%IH].
Qed.

Lemma dict_set_set k v v' d :
  dict_set k v (dict_set k v' d) = dict_set k v d.
Proof.
  induction d as [|[k' v0] d IH]; simpl.
  - by rewrite String.eqb_refl.
  - destruct (String.eqb k k') eqn:E; simpl; rewrite E; [done | by rewrite IH].
Qed.

Lemma dict_has_get k d : dict_has k d = bool_decide (is_Some (dict_get k d)).
Proof.
  unfold dict_has. destruct (dict_get k d); symmetry.
  - by apply bool_decide_eq_true.
  - apply bool_decide_eq_false. by intros [? ?].
Qed.
End DictFacts.

(** ** One record *)

Section Records.
Implicit Types (r : json) (ids : gset string) (added : Z).

Lemma wf_record_view r : wf_record r = true → record_view r.
Proof.
  destruct r as [| | | | |?|dr]; try discriminate. simpl.
  destruct (dict_get "Account" dr) as [[| | | | | |da]|] eqn:Ha;
    try discriminate; [|intros _; by apply view_other].
  destruct (dict_get "account_id" da) as [[| | | |i| |]|] eqn:Hi;
    try discriminate.
  destruct (dict_get "account" da) as [[| | | | | |dacc]|] eqn:Hacc;
    try discriminate.
  destruct (dict_get "amount" dacc) as [[| | | |s| |]|] eqn:Hs;
    try discriminate.
  intros Hwf. by eapply view_account.
Qed.

Lemma view_wf_record r : record_view r → wf_record r = true.
Proof. intros [dr H|dr da i dacc s H1 H2 H3 H4 H5]; simpl; by simplify_option_eq. Qed.

Ltac view r H :=
  destruct (wf_record_view r H) as [dr Hno|dr da i dacc s Ha Hi Hacc Hs Hamt].

Lemma scan_record_wf ids r :
  wf_record r = true →
  scan_record ids r =
    Ok (match account_id_of r with Some i => {[ i ]} ∪ ids | None => ids end).
Proof.
  intros H. view r H; unfold scan_record, contains, dict_has; simpl.
  - by rewrite Hno.
  - rewrite Ha. simpl. by rewrite Hi.
Qed.

Lemma is_treasury_wf r : wf_record r = true → is_treasury r = Ok (is_near r).
Proof.
  intros H. view r H; unfold is_treasury, is_near, contains, dict_has; simpl.
  - by rewrite Hno.
  - rewrite Ha. simpl. by rewrite Hi.
Qed.

Lemma is_near_account r :
  is_near r = true → account_id_of r = Some "near".
Proof.
  unfold is_near. destruct (account_id_of r) as [i|]; [|done].
  by intros ->%String.eqb_eq.
Qed.

(** An [Account] record of a well-formed document holds a balance. *)
Lemma wf_account_balance r j :
  wf_record r = true → account_id_of r = Some j → is_Some (balance r).
Proof.
  intros H. view r H; unfold balance; simpl.
  - by rewrite Hno.
  - rewrite Ha, Hacc. simpl. rewrite Hs. simpl.
    by destruct (int_of_str_wf s Hamt) as [n ->].
Qed.

Lemma deduct_wf r added :
  wf_record r = true → is_near r = true →
  deduct r added = Ok (adjust_record added r).
Proof.
  intros H Hn. apply is_near_account in Hn.
  view r H; simpl in Hn; [by rewrite Hno in Hn|].
  unfold deduct, adjust_record, balance. simpl.
  rewrite Ha. simpl. rewrite Hacc. simpl. rewrite Hs. simpl.
  by destruct (int_of_str_wf s Hamt) as [n ->].
Qed.

Lemma account_id_of_with_amount r v :
  account_id_of (with_amount r v) = account_id_of r.
Proof.
  destruct r as [| | | | |?|dr]; try done. simpl.
  destruct (dict_get "Account" dr) as [[| | | | | |da]|] eqn:Ha; simpl;
    rewrite ?Ha; try done.
  destruct (dict_get "account" da) as [[| | | | | |dacc]|] eqn:Hacc; simpl;
    rewrite ?Ha; try done.
  rewrite dict_get_set_eq. by rewrite dict_get_set_ne.
Qed.

Lemma amount_of_with_amount r v :
  is_Some (amount_of r) → amount_of (with_amount r v) = Some v.
Proof.
  destruct r as [| | | | |?|dr]; try by intros [? [=]]. simpl.
  destruct (dict_get "Account" dr) as [[| | | | | |da]|] eqn:Ha;
    try by intros [? [=]].
  destruct (dict_get "account" da) as [[| | | | | |dacc]|] eqn:Hacc;
    try by intros [? [=]].
  intros _. simpl. by rewrite !dict_get_set_eq.
Qed.

(** Writing back the amount a record has leaves the record as it is. *)
Lemma with_amount_same r v : amount_of r = Some v → with_amount r v = r.
Proof.
  destruct r as [| | | | |?|dr]; try done. simpl.
  destruct (dict_get "Account" dr) as [[| | | | | |da]|] eqn:Ha; try done.
  destruct (dict_get "account" da) as [[| | | | | |dacc]|] eqn:Hacc; try done.
  intros H. by rewrite (dict_set_same _ _ _ H), (dict_set_same _ _ _ Hacc),
    (dict_set_same _ _ _ Ha).
Qed.

Lemma with_amount_twice r v v' :
  with_amount (with_amount r v') v = with_amount r v.
Proof.
  destruct r as [| | | | |?|dr]; try done. simpl.
  destruct (dict_get "Account" dr) as [[| | | | | |da]|] eqn:Ha; simpl;
    rewrite ?Ha; try done.
  destruct (dict_get "account" da) as [[| | | | | |dacc]|] eqn:Hacc; simpl;
    rewrite ?Ha; simpl; rewrite ?Hacc; try done.
  rewrite !dict_get_set_eq. by rewrite !dict_set_set.
Qed.

Lemma account_id_of_adjust_record added r :
  account_id_of (adjust_record added r) = account_id_of r.
Proof.
  unfold adjust_record. destruct (balance r); [|done].
  apply account_id_of_with_amount.
Qed.

Lemma balance_is_Some_amount r : is_Some (balance r) → is_Some (amount_of r).
Proof. unfold balance. destruct (amount_of r); [by eexists | by intros [? [=]]]. Qed.

(** After the deduction the record holds the difference, written by [str]. *)
Lemma amount_of_adjust_record added r a :
  balance r = Some a →
  amount_of (adjust_record added r) = Some (JStr (py_str (a - added))).
Proof.
  intros H. unfold adjust_record. rewrite H.
  apply amount_of_with_amount, balance_is_Some_amount. by eexists.
Qed.

Lemma balance_adjust_record added r a :
  balance r = Some a → balance (adjust_record added r) = Some (a - added).
Proof.
  intros H. unfold balance at 1.
  rewrite (amount_of_adjust_record _ _ _ H). simpl.
  by rewrite int_of_str_py_str.
Qed.

Lemma wf_with_amount r n :
  wf_record r = true → wf_record (with_amount r (JStr (py_str n))) = true.
Proof.
  intros H. view r H; simpl.
  - by rewrite Hno.
  - rewrite Ha, Hacc. simpl. rewrite !dict_get_set_eq.
    rewrite dict_get_set_ne, Hi by done. apply wf_amount_py_str.
Qed.

Lemma wf_adjust_record added r :
  wf_record r = true → wf_record (adjust_record added r) = true.
Proof.
  intros H. unfold adjust_record. destruct (balance r); [|done].
  by apply wf_with_amount.
Qed.

(** Deducting nothing from a record whose amount was written by [str]
    rewrites the same amount. *)
Lemma adjust_record_again added r :
  is_Some (balance r) →
  adjust_record 0 (adjust_record added r) = adjust_record added r.
Proof.
  intros [a Ha]. unfold adjust_record at 1.
  rewrite (balance_adjust_record _ _ _ Ha), Z.sub_0_r.
  apply with_amount_same. by apply amount_of_adjust_record.
Qed.

Lemma wf_new_records acc :
  wf_record (account_record acc) = true ∧
  wf_record (access_key_record acc) = true.
Proof. done. Qed.

Lemma account_id_of_new acc :
  account_id_of (account_record acc) = Some (acc_id acc) ∧
  account_id_of (access_key_record acc) = None.
Proof. done. Qed.

End Records.

(** ** The three loops on well-formed records *)

Section Loops.
Implicit Types (l : list json) (ids : gset string) (added : Z) (w : world).

Lemma AMOUNT_value : py_int (JStr AMOUNT) = Ok BALANCE.
Proof. reflexivity. Qed.

Lemma account_ids_cons r l :
  account_ids (r :: l) =
    match account_id_of r with
    | Some i => i :: account_ids l
    | None => account_ids l
    end.
Proof. reflexivity. Qed.

Lemma account_ids_app l l' :
  account_ids (l ++ l') = account_ids l ++ account_ids l'.
Proof. apply omap_app. Qed.

Lemma scan_records_wf l ids :
  forallb wf_record l = true →
  scan_records l ids = Ok (list_to_set (account_ids l) ∪ ids).
Proof.
  revert ids. induction l as [|r l IH]; intros ids Hwf.
  - simpl. f_equal. set_solver.
  - apply andb_prop in Hwf as [Hr Hl]. cbn [scan_records].
    rewrite (scan_record_wf _ _ Hr). cbn [rbind].
    rewrite (IH _ Hl), account_ids_cons.
    destruct (account_id_of r); f_equal; set_solver.
Qed.

Lemma account_line_present l acc :
  acc_id acc ∈ account_ids l →
  account_line l acc = "  Account " +:+ acc_id acc +:+ " already exists, skipping".
Proof. intros H. unfold account_line. by rewrite bool_decide_eq_true_2. Qed.

Lemma account_line_absent l acc :
  acc_id acc ∉ account_ids l → account_line l acc = "  Adding " +:+ acc_id acc.
Proof. intros H. unfold account_line. by rewrite bool_decide_eq_false_2. Qed.

Lemma add_accounts_spec l0 ids accs l added w :
  (∀ s, s ∈ ids ↔ s ∈ account_ids l0) →
  let new := filter (fun acc => acc_id acc ∉ account_ids l0) accs in
  add_accounts accs ids (JArr l) added w =
    (Ok (JArr (l ++ new_records new), added + Z.of_nat (length new) * BALANCE),
     World (files w) (stdout w ++ map (account_line l0) accs)).
Proof.
  intros Hids. revert l added w.
  induction accs as [|acc accs IH]; intros l added w; cbn [add_accounts map].
  - simpl. unfold ret. rewrite !app_nil_r, Z.add_0_r. by destruct w.
  - rewrite AMOUNT_value.
    destruct (decide (acc_id acc ∈ ids)) as [Hin|Hin].
    + rewrite bool_decide_eq_true_2 by done. apply Hids in Hin.
      rewrite account_line_present by done.
      rewrite filter_cons_False by (by intros Hn).
      unfold bind, print. rewrite IH. cbn [files stdout].
      by rewrite <- app_assoc.
    + rewrite bool_decide_eq_false_2 by done. rewrite Hids in Hin.
      rewrite account_line_absent by done.
      rewrite filter_cons_True by done.
      unfold bind, print, lift, append. rewrite IH.
      cbn [files stdout new_records flat_map length].
      rewrite <- !app_assoc.
      set (n := length (filter _ accs)).
      by replace (added + BALANCE + Z.of_nat n * BALANCE)
        with (added + Z.of_nat (S n) * BALANCE) by lia.
Qed.

Lemma deduct_loop_wf l added w :
  forallb wf_record l = true →
  deduct_loop l added w =
    (Ok (adjust added l),
     World (files w)
           (stdout w ++ if existsb is_near l then [deducted_line added] else [])).
Proof.
  induction l as [|r l IH]; simpl.
  - intros _. unfold ret. rewrite app_nil_r. by destruct w.
  - intros [Hr Hl]%andb_prop. unfold bind, lift.
    rewrite (is_treasury_wf _ Hr). destruct (is_near r) eqn:Hn; simpl.
    + by rewrite (deduct_wf _ _ Hr Hn).
    + by rewrite (IH Hl).
Qed.

Lemma is_near_new_records accs :
  Forall (fun acc => acc_id acc ≠ "near") accs →
  existsb is_near (new_records accs) = false.
Proof.
  induction 1 as [|acc accs Hacc _ IH]; [done|]. simpl. rewrite IH.
  unfold is_near. simpl. by apply String.eqb_neq in Hacc as ->.
Qed.

Lemma NEW_ACCOUNTS_not_near :
  Forall (fun acc => acc_id acc ≠ "near") NEW_ACCOUNTS.
Proof. repeat constructor; discriminate. Qed.

Lemma missing_not_near l :
  Forall (fun acc => acc_id acc ≠ "near") (missing l).
Proof.
  apply Forall_forall. intros acc [_ Hin]%list_elem_of_filter.
  by apply (proj1 (Forall_forall _ _) NEW_ACCOUNTS_not_near).
Qed.

Lemma adjust_no_near added l : existsb is_near l = false → adjust added l = l.
Proof.
  induction l as [|r l IH]; [done|]. simpl.
  intros [-> Hl]%orb_false_elim. by rewrite (IH Hl).
Qed.

Lemma adjust_app added l l' :
  existsb is_near l' = false → adjust added (l ++ l') = adjust added l ++ l'.
Proof.
  intros H. induction l as [|r l IH]; simpl.
  - by apply adjust_no_near.
  - destruct (is_near r); [done | by rewrite IH].
Qed.

Lemma forallb_wf_new_records accs : forallb wf_record (new_records accs) = true.
Proof. induction accs as [|acc accs IH]; [done|]. simpl. by rewrite IH. Qed.

Lemma forallb_wf_adjust added l :
  forallb wf_record l = true → forallb wf_record (adjust added l) = true.
Proof.
  induction l as [|r l IH]; [done|]. simpl. intros [Hr Hl]%andb_prop.
  destruct (is_near r); simpl.
  - by rewrite wf_adjust_record, Hl.
  - by rewrite Hr, IH.
Qed.

Lemma account_ids_adjust added l : account_ids (adjust added l) = account_ids l.
Proof.
  induction l as [|r l IH]; [done|]. simpl. destruct (is_near r).
  - by rewrite !account_ids_cons, account_id_of_adjust_record.
  - by rewrite !account_ids_cons, IH.
Qed.

Lemma account_ids_new_records accs :
  account_ids (new_records accs) = map acc_id accs.
Proof. induction accs as [|acc accs IH]; [done|]. simpl. by rewrite <- IH. Qed.

Lemma existsb_is_near_adjust added l :
  existsb is_near (adjust added l) = existsb is_near l.
Proof.
  induction l as [|r l IH]; [done|]. simpl. destruct (is_near r) eqn:Hn; simpl.
  - unfold is_near in *. by rewrite account_id_of_adjust_record, Hn.
  - by rewrite Hn, IH.
Qed.

End Loops.

(** ** A run on a well-formed document *)

(** The first scenario: a treasury of 10^27 pays for the three accounts. *)
Example first_run :
  let w := World {[ node "0" :=
             Doc (JObj [("records",
                         JArr [account_of "near" "1000000000000000000000000000"])]) ]} [] in
  update_genesis (node "0") w =
    (Ok tt,
     World {[ node "0" :=
         Doc (JObj [("records",
                     JArr (account_of "near" "970000000000000000000000000"
                           :: new_records NEW_ACCOUNTS))]) ]}
       [ "Updating /home/ubuntu/.near/localnet/node0/genesis.json...";
         "  Adding mpc-node-0.node0";
         "  Adding mpc-node-1.node0";
         "  Adding mpc-node-2.node0";
         "  Deducted 30000000000000000000000000 from 'near' account";
         "  Done." ]).
Proof. vm_compute. reflexivity. Qed.

(** Records that are not objects: a string record is stepped over by both
    loops, a number is not a container. *)
Example odd_records :
  let run data := (update_genesis (node "0") (World {[ node "0" := Doc data ]} [])).1 in
  run (JObj [("records", JArr [JStr "note"])]) = Ok tt ∧
  run (JObj [("records", JArr [JStr "Accounts"])]) = Raise TypeError ∧
  run (JObj [("records", JArr [JInt 7])]) = Raise TypeError ∧
  run (JObj [("records", JObj [("k", JNull)])]) = Raise AttributeError ∧
  run (JObj [("records", JNull)]) = Raise TypeError ∧
  run (JArr []) = Raise TypeError.
Proof. repeat split; reflexivity. Qed.

Section Run.
Implicit Types (l : list json) (w : world) (path : string) (data : json).

Lemma wf_doc_inv data :
  wf_doc data = true →
  ∃ d l, data = JObj d ∧ dict_get "records" d = Some (JArr l) ∧
         forallb wf_record l = true.
Proof.
  destruct data as [| | | | | |d]; try discriminate. simpl.
  destruct (dict_get "records" d) as [[| | | | |l|]|] eqn:E; try discriminate.
  intros H. by exists d, l.
Qed.

Lemma records_of_with_records d records :
  records_of (with_records (JObj d) (JArr records)) = records.
Proof. simpl. by rewrite dict_get_set_eq. Qed.

Lemma existing_ids_spec l s :
  s ∈ (list_to_set (account_ids l) ∪ ∅ : gset string) ↔ s ∈ account_ids l.
Proof. rewrite elem_of_union, elem_of_list_to_set. set_solver. Qed.

(** [update_genesis] succeeds on a well-formed document: it writes
    [patched data] to the file and prints [run_log path data]. *)
Lemma update_genesis_wf path w data :
  files w !! path = Some (Doc data) →
  wf_doc data = true →
  update_genesis path w =
    (Ok tt, World (<[path := Doc (patched data)]> (files w))
                  (stdout w ++ run_log path data)).
Proof.
  intros Hfile (d & l & -> & Hrec & Hwf)%wf_doc_inv.
  unfold update_genesis, bind at 1, path_exists.
  rewrite bool_decide_eq_true_2 by by rewrite Hfile.
  cbn [negb]. unfold bind at 1, print at 1, bind at 1, json_load.
  cbn [files stdout]. rewrite Hfile.
  unfold bind at 1, lift at 1, getitem. rewrite Hrec.
  unfold bind at 1, lift at 1, iter.
  unfold bind at 1, lift at 1. rewrite (scan_records_wf _ _ Hwf).
  unfold bind at 1.
  rewrite (add_accounts_spec l _ _ _ _ _ (existing_ids_spec l)).
  cbn [files stdout]. fold (missing l).
  unfold deduct_treasury, bind at 1, bind at 1, lift at 1, iter, bind at 1.
  rewrite deduct_loop_wf
    by by rewrite forallb_app, Hwf, forallb_wf_new_records.
  cbn [files stdout]. unfold ret, bind at 1, json_dump, print.
  cbn [files stdout].
  rewrite existsb_app, is_near_new_records, orb_false_r
    by apply missing_not_near.
  rewrite adjust_app by apply is_near_new_records, missing_not_near.
  rewrite Z.add_0_l. fold (handed_out l).
  unfold patched, run_log. cbn [records_of]. rewrite Hrec.
  by rewrite <- !app_assoc.
Qed.

End Run.

(** ** The document written by a run *)

Section Patched.
Implicit Types (l : list json) (added : Z) (data : json).

Lemma treasury_cons r l :
  treasury (r :: l) =
    if is_near r then Some (0%nat, r) else prod_map S id <$> treasury l.
Proof.
  unfold treasury. simpl. destruct (is_near r); by case_decide.
Qed.

Lemma treasury_existsb l : is_Some (treasury l) ↔ existsb is_near l = true.
Proof.
  induction l as [|r l IH]; cbn [existsb].
  - split; [by intros [? [=]] | done].
  - rewrite treasury_cons. destruct (is_near r); simpl; [by eauto|].
    rewrite <- IH. destruct (treasury l); simpl; split; by eauto || intros [? [=]].
Qed.

Lemma treasury_None l : treasury l = None → existsb is_near l = false.
Proof.
  intros H. destruct (existsb is_near l) eqn:E; [|done].
  apply treasury_existsb in E as [? E]. congruence.
Qed.

Lemma treasury_is_near l i r : treasury l = Some (i, r) → is_near r = true.
Proof. unfold treasury. by intros (_ & ? & _)%list_find_Some. Qed.

Lemma treasury_lookup l i r : treasury l = Some (i, r) → l !! i = Some r.
Proof. unfold treasury. by intros (? & _)%list_find_Some. Qed.

(** The first treasury record stays where it is; it is the one adjusted. *)
Lemma treasury_adjust added l new :
  existsb is_near new = false →
  treasury (adjust added l ++ new) =
    prod_map id (adjust_record added) <$> treasury l.
Proof.
  intros Hnew. induction l as [|r l IH]; cbn [adjust app].
  - destruct (treasury new) eqn:E; [|done].
    assert (existsb is_near new = true) by (apply treasury_existsb; eauto).
    congruence.
  - rewrite (treasury_cons r l). destruct (is_near r) eqn:Hr; cbn [fmap option_fmap option_map app].
    + rewrite treasury_cons. unfold is_near.
      rewrite account_id_of_adjust_record. fold (is_near r). by rewrite Hr.
    + rewrite treasury_cons, Hr, IH. by destruct (treasury l) as [[??]|].
Qed.

Lemma length_adjust added l : length (adjust added l) = length l.
Proof.
  induction l as [|r l IH]; [done|]. simpl.
  destruct (is_near r); simpl; by rewrite ?IH.
Qed.

(** Every record but the first treasury record is left as it is. *)
Lemma adjust_lookup added l i r :
  l !! i = Some r →
  (treasury l = Some (i, r) ∧ adjust added l !! i = Some (adjust_record added r)) ∨
  ((∀ r0, treasury l ≠ Some (i, r0)) ∧ adjust added l !! i = Some r).
Proof.
  revert i. induction l as [|r' l IH]; intros i Hi; [done|].
  rewrite treasury_cons. simpl. destruct (is_near r') eqn:Hr.
  - destruct i as [|i]; simpl in *.
    + left. by simplify_eq.
    + right. split; [by intros r0 [=] | done].
  - destruct i as [|i]; simpl in *.
    + right. simplify_eq. split; [|done].
      intros r0. by destruct (treasury l) as [[??]|].
    + destruct (IH i Hi) as [[Ht Ha]|[Ht Ha]].
      * left. by rewrite Ht.
      * right. split; [|done]. intros r0.
        destruct (treasury l) as [[j r1]|] eqn:E; [|done]. simpl.
        intros [= <- <-]. by apply (Ht r1).
Qed.

(** A second deduction, of nothing, rewrites what the first one wrote. *)
Lemma adjust_again added l :
  forallb wf_record l = true → adjust 0 (adjust added l) = adjust added l.
Proof.
  induction l as [|r l IH]; [done|]. simpl. intros [Hr Hl]%andb_prop.
  destruct (is_near r) eqn:Hn; simpl.
  - unfold is_near. rewrite account_id_of_adjust_record. fold (is_near r).
    rewrite Hn. f_equal. apply adjust_record_again.
    eapply wf_account_balance; [done | by apply is_near_account].
  - by rewrite Hn, IH.
Qed.

Lemma records_of_patched data :
  wf_doc data = true →
  records_of (patched data) =
    adjust (handed_out (records_of data)) (records_of data) ++
    new_records (missing (records_of data)).
Proof.
  intros (d & l & -> & Hrec & Hwf)%wf_doc_inv. unfold patched.
  by rewrite records_of_with_records.
Qed.

Lemma account_ids_patched data :
  wf_doc data = true →
  account_ids (records_of (patched data)) =
    account_ids (records_of data) ++ map acc_id (missing (records_of data)).
Proof.
  intros H. by rewrite records_of_patched, account_ids_app,
    account_ids_adjust, account_ids_new_records.
Qed.

Lemma wf_doc_patched data : wf_doc data = true → wf_doc (patched data) = true.
Proof.
  intros (d & l & -> & Hrec & Hwf)%wf_doc_inv. unfold patched. simpl.
  rewrite Hrec, dict_get_set_eq, forallb_app.
  by rewrite forallb_wf_adjust, forallb_wf_new_records.
Qed.

(** After a run every configured account is in the document. *)
Lemma configured_in_patched data :
  wf_doc data = true →
  Forall (fun acc => acc_id acc ∈ account_ids (records_of (patched data)))
         NEW_ACCOUNTS.
Proof.
  intros H. rewrite account_ids_patched by done.
  apply Forall_forall. intros acc Hacc. apply elem_of_app.
  destruct (decide (acc_id acc ∈ account_ids (records_of data))); [by left|].
  right. apply list_elem_of_fmap. exists acc. split; [done|].
  by apply list_elem_of_filter.
Qed.

Lemma missing_patched data :
  wf_doc data = true → missing (records_of (patched data)) = [].
Proof.
  intros H%configured_in_patched. unfold missing.
  induction H as [|acc accs Hacc _ IH]; [done|].
  by rewrite filter_cons_False by (by intros Hn).
Qed.

Lemma patched_patched data :
  wf_doc data = true → patched (patched data) = patched data.
Proof.
  intros H. pose proof (missing_patched _ H) as Hm.
  pose proof (records_of_patched _ H) as Hp.
  destruct (wf_doc_inv _ H) as (d & l & -> & Hrec & Hwf).
  assert (records_of (JObj d) = l) as Hl by (simpl; by rewrite Hrec).
  rewrite Hl in Hp. unfold patched at 1. unfold handed_out at 1.
  rewrite Hm, Hp. cbn [length new_records flat_map].
  rewrite app_nil_r, Z.mul_0_l.
  rewrite adjust_app by apply is_near_new_records, missing_not_near.
  rewrite adjust_again by done.
  unfold patched. rewrite Hl. cbn [with_records]. by rewrite dict_set_set.
Qed.

End Patched.

(** ** The treasury after a run *)

Section Treasury.
Implicit Types (w : world) (path : string) (data : json) (a : Z).

Lemma treasury_balance_inv data a :
  treasury_balance data = Some a →
  ∃ i r, treasury (records_of data) = Some (i, r) ∧ balance r = Some a.
Proof.
  unfold treasury_balance.
  destruct (treasury (records_of data)) as [[i r]|]; [|done].
  simpl. intros H. by exists i, r.
Qed.

Lemma treasury_patched data i r :
  wf_doc data = true →
  treasury (records_of data) = Some (i, r) →
  treasury (records_of (patched data)) =
    Some (i, adjust_record (handed_out (records_of data)) r).
Proof.
  intros Hwf Ht. rewrite records_of_patched by done.
  rewrite treasury_adjust by apply is_near_new_records, missing_not_near.
  by rewrite Ht.
Qed.

Lemma py_str_negative n :
  n < 0 → ∃ digits, py_str n = String "-" digits ∧ all_digits digits = true.
Proof.
  destruct n as [|p|p]; try lia. intros _. rewrite py_str_neg.
  eexists. split; [done | apply all_digits_of_uint].
Qed.

(** C6: for a path that is not an existing file, update_genesis returns
    without an exception, leaves the file system as it is (no file is
    created or written) and prints that the path is skipped. *)
Theorem skip_missing_file path w :
  files w !! path = None →
  update_genesis path w =
    (Ok tt, World (files w)
                  (stdout w ++ ["Skipping " +:+ path +:+ " (not found)"])).
Proof.
  intros H. unfold update_genesis, bind, path_exists.
  rewrite bool_decide_eq_false_2; [done|]. rewrite H. by intros [? [=]].
Qed.

Lemma skip_missing_file_witness :
  files sample_world !! node "1" = None ∧
  update_genesis (node "1") sample_world =
    (Ok tt, World (files sample_world)
       ["Skipping /home/ubuntu/.near/localnet/node1/genesis.json (not found)"]).
Proof.
  split; [reflexivity|].
  apply (skip_missing_file (node "1") sample_world). reflexivity.
Defined.

(** C1: on a well-formed document with an Account record of "near", a
    run that adds k accounts (the configured accounts whose id was not
    among the Account records) writes a document whose first "near"
    record holds the input balance minus k times
    10000000000000000000000000, in exact integer arithmetic; the
    configured accounts already present are not counted in k. *)
Theorem supply_conservation path w data a :
  files w !! path = Some (Doc data) →
  wf_doc data = true →
  treasury_balance data = Some a →
  ∃ w' data',
    update_genesis path w = (Ok tt, w') ∧
    files w' !! path = Some (Doc data') ∧
    treasury_balance data' =
      Some (a - Z.of_nat (length (missing (records_of data)))
                * 10000000000000000000000000).
Proof.
  intros Hfile Hwf (i & r & Ht & Hb)%treasury_balance_inv.
  eexists _, (patched data). split; [by apply update_genesis_wf|].
  split; [apply lookup_insert_eq|].
  unfold treasury_balance. rewrite (treasury_patched _ _ _ Hwf Ht). simpl.
  by apply balance_adjust_record.
Qed.

Lemma supply_conservation_witness :
  ∃ w' data',
    update_genesis (node "0") sample_world = (Ok tt, w') ∧
    files w' !! node "0" = Some (Doc data') ∧
    treasury_balance data' = Some 980000000000000000000000000.
Proof.
  apply (supply_conservation (node "0") sample_world sample_doc
           1000000000000000000000000000); reflexivity.
Defined.

(** C9: when the balance handed out exceeds the treasury's amount, the
    run still succeeds: the difference is computed exactly and written
    back as a decimal string with a minus sign, which [int] reads back as
    that negative difference. *)
Theorem negative_treasury path w data a :
  files w !! path = Some (Doc data) →
  wf_doc data = true →
  treasury_balance data = Some a →
  a < Z.of_nat (length (missing (records_of data))) * 10000000000000000000000000 →
  ∃ w' data' i r digits,
    update_genesis path w = (Ok tt, w') ∧
    files w' !! path = Some (Doc data') ∧
    treasury (records_of data') = Some (i, r) ∧
    amount_of r = Some (JStr (String "-" digits)) ∧
    all_digits digits = true ∧
    py_int (JStr (String "-" digits)) =
      Ok (a - Z.of_nat (length (missing (records_of data)))
              * 10000000000000000000000000).
Proof.
  intros Hfile Hwf (i & r & Ht & Hb)%treasury_balance_inv Hlt.
  set (added := Z.of_nat (length (missing (records_of data))) * _) in *.
  destruct (py_str_negative (a - added)) as (digits & Hd & Hall); [lia|].
  exists (World (<[path := Doc (patched data)]> (files w))
                (stdout w ++ run_log path data)),
         (patched data), i, (adjust_record added r), digits.
  split; [by apply update_genesis_wf|].
  split; [apply lookup_insert_eq|].
  split; [by apply treasury_patched|].
  rewrite <- Hd. split; [by apply amount_of_adjust_record|].
  split; [done | apply py_int_py_str].
Qed.

Lemma negative_treasury_witness :
  ∃ w' data' i r digits,
    update_genesis (node "0") (World {[ node "0" := Doc poor_doc ]} []) = (Ok tt, w') ∧
    files w' !! node "0" = Some (Doc data') ∧
    treasury (records_of data') = Some (i, r) ∧
    amount_of r = Some (JStr (String "-" digits)) ∧
    all_digits digits = true ∧
    py_int (JStr (String "-" digits)) = Ok (5 - 20000000000000000000000000).
Proof.
  apply (negative_treasury (node "0") (World {[ node "0" := Doc poor_doc ]} [])
           poor_doc 5); reflexivity.
Defined.

End Treasury.

(** ** Accounts and records after a run *)

Section Accounts.
Implicit Types (w : world) (path : string) (data : json) (l : list json).

Lemma NoDup_NEW_ACCOUNTS : NoDup (map acc_id NEW_ACCOUNTS).
Proof. repeat constructor; set_solver. Qed.

Lemma NoDup_missing l : NoDup (map acc_id (missing l)).
Proof.
  apply (sublist_NoDup _ _ NoDup_NEW_ACCOUNTS).
  apply (fmap_sublist acc_id), sublist_filter.
Qed.

Lemma new_records_lookup accs i acc :
  accs !! i = Some acc →
  new_records accs !! (2 * i)%nat = Some (account_record acc) ∧
  new_records accs !! (2 * i + 1)%nat = Some (access_key_record acc).
Proof.
  revert i. induction accs as [|acc' accs IH]; intros i Hi; [done|].
  destruct i as [|i]; simpl in Hi.
  - by simplify_eq.
  - destruct (IH i Hi) as [H1 H2].
    replace (2 * S i)%nat with (S (S (2 * i))) by lia.
    replace (S (S (2 * i)) + 1)%nat with (S (S (2 * i + 1))) by lia.
    done.
Qed.

(** C2: on an existing, well-formed genesis file a second run of
    update_genesis leaves the file system as the first run left it: the
    document is identical.  After the first run every configured account
    id is among the Account records, so the second run finds each one in
    existing_ids, has nothing to add and deducts 0. *)
Theorem idempotence path w data :
  files w !! path = Some (Doc data) →
  wf_doc data = true →
  ∃ w1 w2 data1,
    update_genesis path w = (Ok tt, w1) ∧
    files w1 !! path = Some (Doc data1) ∧
    update_genesis path w1 = (Ok tt, w2) ∧
    files w2 = files w1 ∧
    Forall (fun acc => acc_id acc ∈ account_ids (records_of data1)) NEW_ACCOUNTS ∧
    missing (records_of data1) = [] ∧
    handed_out (records_of data1) = 0.
Proof.
  intros Hfile Hwf.
  set (w1 := World (<[path := Doc (patched data)]> (files w))
                   (stdout w ++ run_log path data)).
  assert (files w1 !! path = Some (Doc (patched data))) as Hfile1
    by apply lookup_insert_eq.
  pose proof (wf_doc_patched _ Hwf) as Hwf1.
  exists w1, (World (<[path := Doc (patched (patched data))]> (files w1))
                    (stdout w1 ++ run_log path (patched data))),
         (patched data).
  split; [by apply update_genesis_wf|]. split; [done|].
  split; [by apply update_genesis_wf|].
  split; [|split; [by apply configured_in_patched|]].
  - cbn [files]. rewrite patched_patched by done. apply insert_insert_eq.
  - unfold handed_out. by rewrite missing_patched.
Qed.

Lemma idempotence_witness :
  ∃ w1 w2 data1,
    update_genesis (node "0") sample_world = (Ok tt, w1) ∧
    files w1 !! node "0" = Some (Doc data1) ∧
    update_genesis (node "0") w1 = (Ok tt, w2) ∧
    files w2 = files w1 ∧
    Forall (fun acc => acc_id acc ∈ account_ids (records_of data1)) NEW_ACCOUNTS ∧
    missing (records_of data1) = [] ∧
    handed_out (records_of data1) = 0.
Proof.
  apply (idempotence (node "0") sample_world sample_doc); reflexivity.
Defined.

(** C4: if the account ids of the Account records of a well-formed input
    are pairwise distinct, so are those of the document the run writes:
    no duplicate account is created. *)
Theorem no_duplicate_accounts path w data :
  files w !! path = Some (Doc data) →
  wf_doc data = true →
  NoDup (account_ids (records_of data)) →
  ∃ w' data',
    update_genesis path w = (Ok tt, w') ∧
    files w' !! path = Some (Doc data') ∧
    NoDup (account_ids (records_of data')).
Proof.
  intros Hfile Hwf Hnd. eexists _, (patched data).
  split; [by apply update_genesis_wf|]. split; [apply lookup_insert_eq|].
  rewrite account_ids_patched by done. apply NoDup_app.
  split; [done|]. split; [|apply NoDup_missing].
  intros s Hs (acc & -> & [Hacc _]%list_elem_of_filter)%list_elem_of_fmap.
  by apply Hacc.
Qed.

Lemma no_duplicate_accounts_witness :
  ∃ w' data',
    update_genesis (node "0") sample_world = (Ok tt, w') ∧
    files w' !! node "0" = Some (Doc data') ∧
    NoDup (account_ids (records_of data')).
Proof.
  apply (no_duplicate_accounts (node "0") sample_world sample_doc);
    [reflexivity | reflexivity |].
  apply (bool_decide_unpack _). reflexivity.
Defined.

(** C5: the records a run adds are appended after the input records, two
    for each added account, in the order of the configured list: the
    Account record first, and right after it an AccessKey record with the
    same account_id, the public key of the account's entry, nonce 0 and
    permission "FullAccess". *)
Theorem pairing path w data :
  files w !! path = Some (Doc data) →
  wf_doc data = true →
  ∃ w' data' old,
    update_genesis path w = (Ok tt, w') ∧
    files w' !! path = Some (Doc data') ∧
    records_of data' = old ++ new_records (missing (records_of data)) ∧
    length old = length (records_of data) ∧
    ∀ i acc,
      missing (records_of data) !! i = Some acc →
      records_of data' !! (length (records_of data) + 2 * i)%nat =
        Some (account_record acc) ∧
      account_id_of (account_record acc) = Some (acc_id acc) ∧
      records_of data' !! (length (records_of data) + 2 * i + 1)%nat =
        Some (JObj [("AccessKey", JObj [
                ("account_id", JStr (acc_id acc));
                ("public_key", JStr (acc_pk acc));
                ("access_key", JObj [
                   ("nonce", JInt 0);
                   ("permission", JStr "FullAccess") ]) ])]).
Proof.
  intros Hfile Hwf.
  eexists _, (patched data), (adjust _ (records_of data)).
  split; [by apply update_genesis_wf|]. split; [apply lookup_insert_eq|].
  split; [by apply records_of_patched|].
  split; [apply length_adjust|].
  intros i acc Hi. rewrite records_of_patched by done.
  destruct (new_records_lookup _ _ _ Hi) as [H1 H2].
  rewrite <- Nat.add_assoc.
  rewrite !lookup_app_r by (rewrite length_adjust; lia).
  rewrite length_adjust.
  replace (length (records_of data) + 2 * i - length (records_of data))%nat
    with (2 * i)%nat by lia.
  replace (length (records_of data) + (2 * i + 1) - length (records_of data))%nat
    with (2 * i + 1)%nat by lia.
  by rewrite H1, H2.
Qed.

Lemma pairing_witness :
  ∃ w' data' old,
    update_genesis (node "0") sample_world = (Ok tt, w') ∧
    files w' !! node "0" = Some (Doc data') ∧
    records_of data' = old ++ new_records (missing (records_of sample_doc)) ∧
    length old = length (records_of sample_doc) ∧
    ∀ i acc,
      missing (records_of sample_doc) !! i = Some acc →
      records_of data' !! (length (records_of sample_doc) + 2 * i)%nat =
        Some (account_record acc) ∧
      account_id_of (account_record acc) = Some (acc_id acc) ∧
      records_of data' !! (length (records_of sample_doc) + 2 * i + 1)%nat =
        Some (JObj [("AccessKey", JObj [
                ("account_id", JStr (acc_id acc));
                ("public_key", JStr (acc_pk acc));
                ("access_key", JObj [
                   ("nonce", JInt 0);
                   ("permission", JStr "FullAccess") ]) ])]).
Proof.
  apply (pairing (node "0") sample_world sample_doc); reflexivity.
Defined.

End Accounts.

(** ** What a run leaves as it was *)

Section Frame.
Implicit Types (w : world) (path : string) (data : json) (l : list json).

Lemma getitem_with_records data records k :
  k ≠ "records" → getitem (with_records data records) k = getitem data k.
Proof.
  intros Hk. destruct data as [| | | | | |d]; try done. simpl.
  by rewrite dict_get_set_ne.
Qed.

Lemma forallb_lookup l i r :
  forallb wf_record l = true → l !! i = Some r → wf_record r = true.
Proof.
  intros H Hi. apply list_elem_of_lookup_2, list_elem_of_In in Hi.
  by apply (proj1 (forallb_forall _ _) H).
Qed.

(** C7: on a well-formed document without an Account record of "near" the
    run succeeds without any adjustment: the document written is the
    input with the new records appended to its records and nothing else
    changed, it still has no treasury record, and no deduction is
    printed. *)
Theorem treasury_not_found path w data :
  files w !! path = Some (Doc data) →
  wf_doc data = true →
  treasury (records_of data) = None →
  ∃ w' data',
    update_genesis path w = (Ok tt, w') ∧
    files w' !! path = Some (Doc data') ∧
    data' = with_records data
              (JArr (records_of data ++ new_records (missing (records_of data)))) ∧
    records_of data' =
      records_of data ++ new_records (missing (records_of data)) ∧
    (∀ k, k ≠ "records" → getitem data' k = getitem data k) ∧
    treasury (records_of data') = None ∧
    stdout w' =
      stdout w ++ ["Updating " +:+ path +:+ "..."] ++
      map (account_line (records_of data)) NEW_ACCOUNTS ++ ["  Done."].
Proof.
  intros Hfile Hwf Hnone. pose proof (treasury_None _ Hnone) as Hno.
  assert (patched data =
          with_records data
            (JArr (records_of data ++ new_records (missing (records_of data)))))
    as Hp by (unfold patched; by rewrite adjust_no_near).
  eexists _, (patched data).
  split; [by apply update_genesis_wf|]. split; [apply lookup_insert_eq|].
  split; [done|].
  split; [by rewrite records_of_patched, adjust_no_near|].
  split; [rewrite Hp; intros k Hk; by apply getitem_with_records|].
  split.
  - rewrite records_of_patched by done.
    rewrite treasury_adjust by apply is_near_new_records, missing_not_near.
    by rewrite Hnone.
  - cbn [stdout]. unfold run_log. by rewrite Hno.
Qed.

Lemma treasury_not_found_witness :
  ∃ w' data',
    update_genesis (node "0") (World {[ node "0" := Doc no_treasury_doc ]} []) =
      (Ok tt, w') ∧
    files w' !! node "0" = Some (Doc data') ∧
    data' = with_records no_treasury_doc
              (JArr (records_of no_treasury_doc ++ new_records NEW_ACCOUNTS)) ∧
    records_of data' = records_of no_treasury_doc ++ new_records NEW_ACCOUNTS ∧
    (∀ k, k ≠ "records" → getitem data' k = getitem no_treasury_doc k) ∧
    treasury (records_of data') = None ∧
    stdout w' =
      [ "Updating /home/ubuntu/.near/localnet/node0/genesis.json...";
        "  Adding mpc-node-0.node0";
        "  Adding mpc-node-1.node0";
        "  Adding mpc-node-2.node0";
        "  Done." ].
Proof.
  apply (treasury_not_found (node "0")
           (World {[ node "0" := Doc no_treasury_doc ]} []) no_treasury_doc);
    reflexivity.
Defined.

(** C8: on a well-formed document the run writes the input document with
    only the list under 'records' changed: its first records are the input
    records in their order, each one identical to the input record (of any
    variant) except the first "near" Account record, which differs in its
    amount only; the new records come after them. *)
Theorem frame path w data :
  files w !! path = Some (Doc data) →
  wf_doc data = true →
  ∃ w' data' old,
    update_genesis path w = (Ok tt, w') ∧
    files w' !! path = Some (Doc data') ∧
    data' = with_records data
              (JArr (old ++ new_records (missing (records_of data)))) ∧
    records_of data' = old ++ new_records (missing (records_of data)) ∧
    length old = length (records_of data) ∧
    (∀ i r, records_of data !! i = Some r →
            (∀ r0, treasury (records_of data) ≠ Some (i, r0)) →
            old !! i = Some r) ∧
    (∀ i r, treasury (records_of data) = Some (i, r) →
            ∃ v, old !! i = Some (with_amount r v)) ∧
    (∀ k, k ≠ "records" → getitem data' k = getitem data k).
Proof.
  intros Hfile Hwf.
  eexists _, (patched data), (adjust _ (records_of data)).
  split; [by apply update_genesis_wf|]. split; [apply lookup_insert_eq|].
  split; [done|]. split; [by apply records_of_patched|].
  split; [apply length_adjust|].
  destruct (wf_doc_inv _ Hwf) as (d & l & -> & Hrec & Hl).
  assert (records_of (JObj d) = l) as -> by (simpl; by rewrite Hrec).
  split; [|split].
  - intros i r Hi Hnot.
    destruct (adjust_lookup (handed_out l) l i r Hi) as [[Ht _]|[_ Ha]]; [|done].
    by destruct (Hnot r).
  - intros i r Ht. pose proof (treasury_lookup _ _ _ Ht) as Hi.
    destruct (adjust_lookup (handed_out l) l i r Hi) as [[_ Ha]|[Hnot _]];
      [|by destruct (Hnot r)].
    rewrite Ha. unfold adjust_record.
    destruct (wf_account_balance r "near") as [a ->]; [| |by eexists].
    + by eapply forallb_lookup.
    + by eapply is_near_account, treasury_is_near.
  - intros k Hk. by apply getitem_with_records.
Qed.

Lemma frame_witness :
  ∃ w' data' old,
    update_genesis (node "0") sample_world = (Ok tt, w') ∧
    files w' !! node "0" = Some (Doc data') ∧
    data' = with_records sample_doc
              (JArr (old ++ new_records (missing (records_of sample_doc)))) ∧
    records_of data' = old ++ new_records (missing (records_of sample_doc)) ∧
    length old = length (records_of sample_doc) ∧
    (∀ i r, records_of sample_doc !! i = Some r →
            (∀ r0, treasury (records_of sample_doc) ≠ Some (i, r0)) →
            old !! i = Some r) ∧
    (∀ i r, treasury (records_of sample_doc) = Some (i, r) →
            ∃ v, old !! i = Some (with_amount r v)) ∧
    (∀ k, k ≠ "records" → getitem data' k = getitem sample_doc k).
Proof.
  apply (frame (node "0") sample_world sample_doc); reflexivity.
Defined.

End Frame.

(** ** Exceptions *)

Section Exceptions.
Implicit Types (w : world) (path : string) (l : list json) (ids : gset string).

Lemma run_paths_cons_raise p rest w e w' :
  update_genesis p w = (Raise e, w') → run_paths (p :: rest) w = (Raise e, w').
Proof. intros H. cbn [run_paths]. unfold bind. by rewrite H. Qed.

Lemma run_paths_app pre rest w w1 :
  run_paths pre w = (Ok tt, w1) →
  run_paths (pre ++ rest) w = run_paths rest w1.
Proof.
  revert w. induction pre as [|p pre IH]; intros w; cbn [run_paths app].
  - unfold ret. by intros [= ->].
  - unfold bind. destruct (update_genesis p w) as [[[]|e] w0]; [apply IH|done].
Qed.

(** A file that is not JSON, or whose document has no list under
    ['records'] to read, stops [update_genesis] right after its first
    line of output. *)
Lemma update_genesis_load_error path w c e :
  files w !! path = Some c →
  load_error c = Some e →
  update_genesis path w =
    (Raise e, World (files w) (stdout w ++ ["Updating " +:+ path +:+ "..."])).
Proof.
  intros Hfile He. unfold update_genesis, bind at 1, path_exists.
  rewrite bool_decide_eq_true_2 by by rewrite Hfile.
  cbn [negb]. unfold bind at 1, print at 1, bind at 1, json_load.
  cbn [files stdout]. rewrite Hfile.
  destruct c as [|data]; simpl in He; [by simplify_eq|].
  unfold bind at 1, lift at 1, getitem.
  destruct data as [| | | | | |d]; try by simplify_eq.
  unfold dict_has in He.
  destruct (dict_get "records" d); by simplify_eq.
Qed.

Lemma scan_records_app pre rest ids :
  scan_records (pre ++ rest) ids =
    let? ids' := scan_records pre ids in scan_records rest ids'.
Proof.
  revert ids. induction pre as [|r pre IH]; intros ids; [done|].
  cbn [scan_records app]. destruct (scan_record ids r); [apply IH | done].
Qed.

Lemma scan_record_lacks_account_id ids r :
  lacks_account_id r = true → scan_record ids r = Raise KeyError.
Proof.
  destruct r as [| | | | | |dr]; try done. unfold lacks_account_id.
  destruct (dict_get "Account" dr) as [[| | | | | |da]|] eqn:Ha; try done.
  unfold scan_record, contains, dict_has, getitem. rewrite Ha. cbn [rbind].
  unfold dict_has. by destruct (dict_get "account_id" da).
Qed.

(** The shape of a treasury record without ['amount']. *)
Lemma near_lacks_amount_inv r :
  near_lacks_amount r = true →
  ∃ dr da dacc,
    r = JObj dr ∧ dict_get "Account" dr = Some (JObj da) ∧
    dict_get "account_id" da = Some (JStr "near") ∧
    dict_get "account" da = Some (JObj dacc) ∧
    dict_get "amount" dacc = None.
Proof.
  unfold near_lacks_amount. intros [Hn H]%andb_prop.
  apply is_near_account in Hn.
  destruct r as [| | | | | |dr]; try done. simpl in Hn.
  destruct (dict_get "Account" dr) as [[| | | | | |da]|] eqn:Ha; try done.
  destruct (dict_get "account_id" da) as [[| | | |i| |]|] eqn:Hi; try done.
  destruct (dict_get "account" da) as [[| | | | | |dacc]|] eqn:Hacc; try done.
  unfold dict_has in H. destruct (dict_get "amount" dacc) eqn:Hamt; [done|].
  simplify_eq. by exists dr, da, dacc.
Qed.

Lemma scan_record_near ids r :
  near_lacks_amount r = true → scan_record ids r = Ok ({[ "near" ]} ∪ ids).
Proof.
  intros (dr & da & dacc & -> & Ha & Hi & _)%near_lacks_amount_inv.
  unfold scan_record, contains, dict_has, getitem. rewrite Ha. cbn [rbind].
  by rewrite Hi.
Qed.

Lemma is_treasury_near r :
  near_lacks_amount r = true → is_treasury r = Ok true.
Proof.
  intros (dr & da & dacc & -> & Ha & Hi & _)%near_lacks_amount_inv.
  unfold is_treasury, contains, dict_has, getitem. rewrite Ha. cbn [rbind].
  by rewrite Hi.
Qed.

Lemma deduct_lacks_amount r added :
  near_lacks_amount r = true → deduct r added = Raise KeyError.
Proof.
  intros (dr & da & dacc & -> & Ha & Hi & Hacc & Hamt)%near_lacks_amount_inv.
  unfold deduct, getitem. rewrite Ha. cbn [rbind]. rewrite Hacc. cbn [rbind].
  by rewrite Hamt.
Qed.

Lemma account_id_of_near r :
  near_lacks_amount r = true → account_id_of r = Some "near".
Proof. intros [Hn _]%andb_prop. by apply is_near_account. Qed.

(** Records before the first treasury record are stepped over. *)
Lemma deduct_loop_skip pre rest added w :
  forallb wf_record pre = true →
  existsb is_near pre = false →
  deduct_loop (pre ++ rest) added w =
    match deduct_loop rest added w with
    | (Ok rest', w') => (Ok (pre ++ rest'), w')
    | (Raise e, w') => (Raise e, w')
    end.
Proof.
  induction pre as [|r pre IH]; cbn [app forallb existsb deduct_loop].
  - intros _ _. by destruct (deduct_loop rest added w) as [[?|?] ?].
  - intros [Hr Hpre]%andb_prop [Hn Hno]%orb_false_elim.
    unfold bind at 1, lift at 1. rewrite (is_treasury_wf _ Hr), Hn.
    unfold bind at 1. rewrite (IH Hpre Hno).
    by destruct (deduct_loop rest added w) as [[?|?] ?].
Qed.

End Exceptions.

Section Crashes.
Implicit Types (w : world) (path : string) (l : list json).

Lemma update_genesis_lacks_account_id path w d pre r post :
  files w !! path = Some (Doc (JObj d)) →
  dict_get "records" d = Some (JArr (pre ++ r :: post)) →
  forallb wf_record pre = true →
  lacks_account_id r = true →
  update_genesis path w =
    (Raise KeyError,
     World (files w) (stdout w ++ ["Updating " +:+ path +:+ "..."])).
Proof.
  intros Hfile Hrec Hpre Hr. unfold update_genesis, bind at 1, path_exists.
  rewrite bool_decide_eq_true_2 by by rewrite Hfile.
  cbn [negb]. unfold bind at 1, print at 1, bind at 1, json_load.
  cbn [files stdout]. rewrite Hfile.
  unfold bind at 1, lift at 1, getitem. rewrite Hrec.
  unfold bind at 1, lift at 1, iter.
  unfold bind at 1, lift at 1.
  rewrite scan_records_app, (scan_records_wf _ _ Hpre).
  cbn [rbind scan_records]. by rewrite scan_record_lacks_account_id.
Qed.

Lemma update_genesis_lacks_amount path w d pre r post :
  files w !! path = Some (Doc (JObj d)) →
  dict_get "records" d = Some (JArr (pre ++ r :: post)) →
  forallb wf_record pre = true →
  near_lacks_amount r = true →
  existsb is_near pre = false →
  forallb wf_record post = true →
  update_genesis path w =
    (Raise KeyError,
     World (files w)
           (stdout w ++ ["Updating " +:+ path +:+ "..."] ++
            map (account_line (pre ++ r :: post)) NEW_ACCOUNTS)).
Proof.
  intros Hfile Hrec Hpre Hr Hno Hpost.
  unfold update_genesis, bind at 1, path_exists.
  rewrite bool_decide_eq_true_2 by by rewrite Hfile.
  cbn [negb]. unfold bind at 1, print at 1, bind at 1, json_load.
  cbn [files stdout]. rewrite Hfile.
  unfold bind at 1, lift at 1, getitem. rewrite Hrec.
  unfold bind at 1, lift at 1, iter.
  unfold bind at 1, lift at 1.
  rewrite scan_records_app, (scan_records_wf _ _ Hpre).
  cbn [rbind scan_records]. rewrite (scan_record_near _ _ Hr). cbn [rbind].
  rewrite (scan_records_wf _ _ Hpost).
  unfold bind at 1.
  rewrite (add_accounts_spec (pre ++ r :: post)).
  2:{ intros s. rewrite account_ids_app, account_ids_cons,
        (account_id_of_near _ Hr).
      rewrite !elem_of_union, !elem_of_list_to_set, elem_of_app,
        elem_of_cons, elem_of_singleton.
      set_solver. }
  cbn [files stdout].
  unfold deduct_treasury, bind at 1, bind at 1, lift at 1, iter, bind at 1.
  rewrite <- (app_assoc pre). rewrite (deduct_loop_skip _ _ _ _ Hpre Hno).
  cbn [app deduct_loop]. unfold bind at 1, lift at 1.
  rewrite (is_treasury_near _ Hr). unfold bind at 1, lift at 1.
  rewrite (deduct_lacks_amount _ _ Hr). by rewrite <- app_assoc.
Qed.

(** C3 (as stated, refuted): the first configured file holds the document
    [{}] and the second one a well-formed document.  The run ends with the
    KeyError of the first file: the second file is never opened, it is not
    given its patched content and no line is printed for it. *)
Lemma malformed_file_stops_main :
  wf_doc sample_doc = true ∧
  files broken_world !! node "1" = Some (Doc sample_doc) ∧
  main broken_world =
    (Raise KeyError,
     World (files broken_world)
       ["Updating /home/ubuntu/.near/localnet/node0/genesis.json..."]) ∧
  files (main broken_world).2 !! node "1" ≠ Some (Doc (patched sample_doc)).
Proof. repeat split; try reflexivity. vm_compute. discriminate. Qed.

(** C3 (amended): a configured path whose file is not valid JSON, or whose
    document has no 'records' key, makes update_genesis raise
    (JSONDecodeError, KeyError) after its first line of output and before
    anything is written; nothing catches the exception, so the run ends
    there: the files of the paths before it keep what was written to them
    and the paths after it are not processed. *)
Theorem malformed_file_aborts_run pre p rest w w1 c e :
  run_paths pre w = (Ok tt, w1) →
  files w1 !! p = Some c →
  load_error c = Some e →
  update_genesis p w1 =
    (Raise e, World (files w1) (stdout w1 ++ ["Updating " +:+ p +:+ "..."])) ∧
  run_paths (pre ++ p :: rest) w =
    (Raise e, World (files w1) (stdout w1 ++ ["Updating " +:+ p +:+ "..."])).
Proof.
  intros Hpre Hfile He.
  pose proof (update_genesis_load_error _ _ _ _ Hfile He) as H.
  split; [done|]. rewrite (run_paths_app _ _ _ _ Hpre).
  by apply run_paths_cons_raise.
Qed.

Lemma malformed_file_aborts_run_witness :
  update_genesis (node "0") broken_world =
    (Raise KeyError,
     World (files broken_world)
       ["Updating /home/ubuntu/.near/localnet/node0/genesis.json..."]) ∧
  main broken_world =
    (Raise KeyError,
     World (files broken_world)
       ["Updating /home/ubuntu/.near/localnet/node0/genesis.json..."]).
Proof.
  apply (malformed_file_aborts_run [] (node "0") [node "1"; node "2"; node "3"]
           broken_world broken_world (Doc (JObj [])) KeyError); reflexivity.
Defined.

(** C10: a document that is valid JSON with a list under 'records' still
    makes update_genesis, and with it the whole run, end with a KeyError
    that nothing handles: at the first Account object without the key
    'account_id' (during the scan, before anything else is printed), and
    at a first "near" Account record whose account object has no key
    'amount' (in the treasury loop, after the lines of the accounts).  In
    both cases the file is left as it was. *)
Theorem key_errors path rest w d pre r post :
  files w !! path = Some (Doc (JObj d)) →
  dict_get "records" d = Some (JArr (pre ++ r :: post)) →
  forallb wf_record pre = true →
  (lacks_account_id r = true →
     run_paths (path :: rest) w =
       (Raise KeyError,
        World (files w) (stdout w ++ ["Updating " +:+ path +:+ "..."]))) ∧
  (near_lacks_amount r = true →
   existsb is_near pre = false →
   forallb wf_record post = true →
     run_paths (path :: rest) w =
       (Raise KeyError,
        World (files w)
              (stdout w ++ ["Updating " +:+ path +:+ "..."] ++
               map (account_line (pre ++ r :: post)) NEW_ACCOUNTS))).
Proof.
  intros Hfile Hrec Hpre. split.
  - intros Hr. apply run_paths_cons_raise.
    by eapply update_genesis_lacks_account_id.
  - intros Hr Hno Hpost. apply run_paths_cons_raise.
    by eapply update_genesis_lacks_amount.
Qed.

Lemma key_errors_witness :
  main (World {[ node "0" := Doc anonymous_doc ]} []) =
    (Raise KeyError,
     World {[ node "0" := Doc anonymous_doc ]}
       ["Updating /home/ubuntu/.near/localnet/node0/genesis.json..."]) ∧
  main (World {[ node "0" := Doc no_amount_doc ]} []) =
    (Raise KeyError,
     World {[ node "0" := Doc no_amount_doc ]}
       ["Updating /home/ubuntu/.near/localnet/node0/genesis.json...";
        "  Adding mpc-node-0.node0";
        "  Adding mpc-node-1.node0";
        "  Adding mpc-node-2.node0"]).
Proof.
  split.
  - refine (proj1 (key_errors (node "0") [node "1"; node "2"; node "3"]
             (World {[ node "0" := Doc anonymous_doc ]} [])
             [("records", JArr [
                contract_record;
                JObj [("Account", JObj [("account", JObj [("amount", JStr "1")])])] ])]
             [contract_record]
             (JObj [("Account", JObj [("account", JObj [("amount", JStr "1")])])])
             [] _ _ _) _); reflexivity.
  - refine (proj2 (key_errors (node "0") [node "1"; node "2"; node "3"]
             (World {[ node "0" := Doc no_amount_doc ]} [])
             [("records", JArr [
                contract_record;
                JObj [("Account", JObj [
                  ("account_id", JStr "near");
                  ("account", JObj [("locked", JStr "0")]) ])] ])]
             [contract_record]
             (JObj [("Account", JObj [
                  ("account_id", JStr "near");
                  ("account", JObj [("locked", JStr "0")]) ])])
             [] _ _ _) _ _ _); reflexivity.
Defined.

End Crashes.


(** * Further properties *)

(** ** What a run does to the file system, on any input *)

Section Files.
Implicit Types (w : world) (path : string).

Lemma keeps_files_ret {A} (a : A) : keeps_files (ret a).
Proof. by intros w. Qed.

Lemma keeps_files_lift {A} (r : result A) : keeps_files (lift r).
Proof. by intros w. Qed.

Lemma keeps_files_print line : keeps_files (print line).
Proof. by intros w. Qed.

Lemma keeps_files_bind {A B} (m : M A) (k : A → M B) :
  keeps_files m → (∀ a, keeps_files (k a)) → keeps_files (bind m k).
Proof.
  intros Hm Hk w. unfold bind. specialize (Hm w).
  destruct (m w) as [[a|e] w1]; simpl in *; [|done].
  by rewrite Hk.
Qed.

Lemma keeps_files_add_accounts accs ids records added :
  keeps_files (add_accounts accs ids records added).
Proof.
  revert records added. induction accs as [|acc accs IH]; intros records added.
  - apply keeps_files_ret.
  - cbn [add_accounts]. case_bool_decide.
    + apply keeps_files_bind; [apply keeps_files_print | intros _; apply IH].
    + repeat (apply keeps_files_bind;
        [first [apply keeps_files_print | apply keeps_files_lift] | intros ?]).
      apply IH.
Qed.

Lemma keeps_files_deduct_loop items added : keeps_files (deduct_loop items added).
Proof.
  induction items as [|r items IH]; [apply keeps_files_ret|].
  cbn [deduct_loop]. apply keeps_files_bind; [apply keeps_files_lift|].
  intros [].
  - repeat (apply keeps_files_bind;
      [first [apply keeps_files_print | apply keeps_files_lift] | intros ?]).
    apply keeps_files_ret.
  - apply keeps_files_bind; [done | intros ?; apply keeps_files_ret].
Qed.

Lemma keeps_files_deduct_treasury records added :
  keeps_files (deduct_treasury records added).
Proof.
  unfold deduct_treasury.
  apply keeps_files_bind; [apply keeps_files_lift | intros items].
  apply keeps_files_bind; [apply keeps_files_deduct_loop | intros ?].
  apply keeps_files_ret.
Qed.

(** A call either leaves the files as they are, or it succeeds and replaces
    the content of the file at [path], which was there before. *)
Lemma update_genesis_files path w r w' :
  update_genesis path w = (r, w') →
  files w' = files w ∨
  r = Ok tt ∧ is_Some (files w !! path) ∧
  ∃ data', files w' = <[path := Doc data']> (files w).
Proof.
  unfold update_genesis, bind at 1, path_exists.
  destruct (files w !! path) as [c|] eqn:Hfile.
  2:{ rewrite bool_decide_eq_false_2 by by intros [? [=]].
      intros [= <- <-]. by left. }
  rewrite bool_decide_eq_true_2 by by eexists. cbn [negb].
  unfold bind at 1, print at 1. unfold bind at 1, json_load. cbn [files].
  rewrite Hfile. destruct c as [|data]; [intros [= <- <-]; by left|].
  unfold bind at 1, lift at 1.
  destruct (getitem data "records") as [records|e]; [|intros [= <- <-]; by left].
  unfold bind at 1, lift at 1.
  destruct (iter records) as [items|e]; [|intros [= <- <-]; by left].
  unfold bind at 1, lift at 1.
  destruct (scan_records items ∅) as [ids|e]; [|intros [= <- <-]; by left].
  unfold bind at 1.
  pose proof (keeps_files_add_accounts NEW_ACCOUNTS ids records 0
    (World (files w) (stdout w ++ ["Updating " +:+ path +:+ "..."]))) as Ha.
  destruct (add_accounts _ _ _ _ _) as [[[records1 added]|e] w1];
    cbn [snd files] in Ha; [|intros [= <- <-]; by left].
  unfold bind at 1.
  pose proof (keeps_files_deduct_treasury records1 added w1) as Hd.
  destruct (deduct_treasury _ _ _) as [[records2|e] w2];
    cbn [snd] in Hd; [|intros [= <- <-]; left; congruence].
  unfold bind, json_dump, print. cbn [files]. intros [= <- <-]. right.
  split; [done|]. split; [by eexists|]. eexists. cbn [files]. by rewrite Hd, Ha.
Qed.

(** X1: whatever the file holds, a call of update_genesis that raises an
    exception has written nothing: the file system is as it was. *)
Theorem failure_writes_nothing path w e w' :
  update_genesis path w = (Raise e, w') → files w' = files w.
Proof.
  intros H. by destruct (update_genesis_files _ _ _ _ H) as [Hf|[Hok _]].
Qed.

Lemma failure_writes_nothing_witness :
  let w := World {[ node "0" := Doc no_amount_doc ]} [] in
  let w' := World {[ node "0" := Doc no_amount_doc ]}
              [ "Updating /home/ubuntu/.near/localnet/node0/genesis.json...";
                "  Adding mpc-node-0.node0";
                "  Adding mpc-node-1.node0";
                "  Adding mpc-node-2.node0" ] in
  update_genesis (node "0") w = (Raise KeyError, w') ∧ files w' = files w.
Proof.
  split; [reflexivity|].
  apply (failure_writes_nothing (node "0") _ KeyError). reflexivity.
Defined.

(** X2: whatever the files hold and however the call ends, update_genesis
    creates and deletes no file, and the only file whose content can change
    is the one at its path. *)
Theorem only_own_file_changes path w r w' :
  update_genesis path w = (r, w') →
  dom (files w') = dom (files w) ∧
  ∀ q, q ≠ path → files w' !! q = files w !! q.
Proof.
  intros H.
  destruct (update_genesis_files _ _ _ _ H) as [Hf|(_ & Hin & data' & Hf)];
    rewrite Hf; [done|].
  split.
  - rewrite dom_insert_L. apply elem_of_dom in Hin. set_solver.
  - intros q Hq. by rewrite lookup_insert_ne.
Qed.

Lemma only_own_file_changes_witness :
  dom (files (update_genesis (node "1") full_world).2) = dom (files full_world) ∧
  ∀ q, q ≠ node "1" →
       files (update_genesis (node "1") full_world).2 !! q = files full_world !! q.
Proof.
  apply (only_own_file_changes (node "1") full_world
           (update_genesis (node "1") full_world).1).
  by destruct (update_genesis (node "1") full_world).
Defined.

End Files.

(** ** The documents on which a run succeeds *)

Section Runnable.
Implicit Types (w : world) (path : string) (l : list json) (r : json)
  (ids : gset string) (added : Z).

Lemma scan_record_scannable ids r :
  scannable r = true →
  scan_record ids r =
    Ok (match account_id_of r with Some i => {[ i ]} ∪ ids | None => ids end).
Proof.
  unfold scan_record, contains, dict_has.
  destruct r as [| | | |s|items|dr]; try discriminate; cbn [scannable].
  - by intros ->%negb_true_iff.
  - by intros ->%negb_true_iff.
  - cbn [account_id_of getitem].
    destruct (dict_get "Account" dr) as [[| | | | | |da]|]; try discriminate;
      [|done].
    cbn [rbind getitem].
    destruct (dict_get "account_id" da) as [[| | | | | |]|]; by try discriminate.
Qed.

Lemma scan_record_unscannable ids r :
  scannable r = false → ∃ e, scan_record ids r = Raise e.
Proof.
  unfold scan_record, contains, dict_has.
  destruct r as [| | | |s|items|dr]; cbn [scannable]; try by eexists.
  - intros ->%negb_false_iff. by eexists.
  - intros ->%negb_false_iff. by eexists.
  - cbn [getitem].
    destruct (dict_get "Account" dr) as [[| | | | | |da]|]; try discriminate;
      cbn [rbind getitem]; try by eexists.
    destruct (dict_get "account_id" da) as [[| | | | | |]|];
      try discriminate; by eexists.
Qed.

Lemma scan_records_scannable l ids :
  forallb scannable l = true →
  scan_records l ids = Ok (list_to_set (account_ids l) ∪ ids).
Proof.
  revert ids. induction l as [|r l IH]; intros ids Hl.
  - simpl. f_equal. set_solver.
  - apply andb_prop in Hl as [Hr Hl]. cbn [scan_records].
    rewrite (scan_record_scannable _ _ Hr). cbn [rbind].
    rewrite (IH _ Hl), account_ids_cons.
    destruct (account_id_of r); f_equal; set_solver.
Qed.

Lemma scan_records_unscannable l ids :
  forallb scannable l = false → ∃ e, scan_records l ids = Raise e.
Proof.
  revert ids. induction l as [|r l IH]; intros ids; [done|].
  cbn [forallb scan_records]. destruct (scannable r) eqn:Hr.
  - rewrite (scan_record_scannable _ _ Hr). cbn [rbind andb]. apply IH.
  - intros _. destruct (scan_record_unscannable ids r Hr) as [e ->]. by eexists.
Qed.

Lemma is_treasury_scannable r :
  scannable r = true → is_treasury r = Ok (is_near r).
Proof.
  unfold is_treasury, is_near, contains, dict_has.
  destruct r as [| | | |s|items|dr]; try discriminate; cbn [scannable].
  - by intros ->%negb_true_iff.
  - by intros ->%negb_true_iff.
  - cbn [account_id_of getitem].
    destruct (dict_get "Account" dr) as [[| | | | | |da]|]; try discriminate;
      [|done].
    cbn [rbind getitem].
    destruct (dict_get "account_id" da) as [[| | | | | |]|]; by try discriminate.
Qed.

(** The deduction succeeds on the record exactly when [int] reads its
    amount. *)
Lemma deduct_balance r added a :
  balance r = Some a → deduct r added = Ok (adjust_record added r).
Proof.
  intros Hb. unfold adjust_record. rewrite Hb. revert Hb.
  unfold balance, deduct, amount_of, with_amount, getitem.
  destruct r as [| | | | | |dr]; try discriminate.
  destruct (dict_get "Account" dr) as [[| | | | | |da]|]; try discriminate.
  cbn [rbind].
  destruct (dict_get "account" da) as [[| | | | | |dacc]|]; try discriminate.
  cbn [rbind].
  destruct (dict_get "amount" dacc) as [v|]; [|discriminate]. cbn [rbind mbind option_bind].
  by destruct (py_int v) as [n|]; [intros [= ->]|].
Qed.

Lemma deduct_no_balance r added :
  balance r = None → ∃ e, deduct r added = Raise e.
Proof.
  unfold balance, deduct, amount_of, getitem.
  destruct r as [| | | | | |dr]; try by eexists.
  destruct (dict_get "Account" dr) as [[| | | | | |da]|]; cbn [rbind];
    try by eexists.
  destruct (dict_get "account" da) as [[| | | | | |dacc]|]; cbn [rbind];
    try by eexists.
  destruct (dict_get "amount" dacc) as [v|]; cbn [rbind mbind option_bind];
    [|by eexists].
  destruct (py_int v) as [n|e]; [discriminate | by eexists].
Qed.

Lemma treasury_app_no_near l new :
  existsb is_near new = false → treasury (l ++ new) = treasury l.
Proof.
  intros Hnew. induction l as [|r l IH]; cbn [app].
  - destruct (treasury new) eqn:E; [|done].
    assert (existsb is_near new = true) by (apply treasury_existsb; eauto).
    congruence.
  - rewrite !treasury_cons, IH. done.
Qed.

Lemma payable_cons r l :
  payable (r :: l) =
    if is_near r then bool_decide (is_Some (balance r)) else payable l.
Proof.
  unfold payable. rewrite treasury_cons. destruct (is_near r); [done|].
  by destruct (treasury l) as [[??]|].
Qed.

Lemma deduct_loop_payable l added w :
  forallb scannable l = true →
  payable l = true →
  deduct_loop l added w =
    (Ok (adjust added l),
     World (files w)
           (stdout w ++ if existsb is_near l then [deducted_line added] else [])).
Proof.
  induction l as [|r l IH]; cbn [forallb deduct_loop adjust existsb].
  - intros _ _. unfold ret. rewrite app_nil_r. by destruct w.
  - intros [Hr Hl]%andb_prop. rewrite payable_cons. unfold bind at 1, lift at 1.
    rewrite (is_treasury_scannable _ Hr). destruct (is_near r); cbn [orb].
    + intros [a Ha]%bool_decide_eq_true. unfold bind at 1, lift at 1.
      by rewrite (deduct_balance _ _ _ Ha).
    + intros Hp. unfold bind at 1. by rewrite (IH Hl Hp).
Qed.

Lemma deduct_loop_unpayable l added w :
  forallb scannable l = true →
  payable l = false →
  ∃ e, deduct_loop l added w = (Raise e, w).
Proof.
  induction l as [|r l IH]; cbn [forallb deduct_loop]; [done|].
  intros [Hr Hl]%andb_prop. rewrite payable_cons. unfold bind at 1, lift at 1.
  rewrite (is_treasury_scannable _ Hr). destruct (is_near r).
  - intros Hb%bool_decide_eq_false. unfold bind at 1, lift at 1.
    destruct (balance r) eqn:E; [destruct Hb; by eexists|].
    destruct (deduct_no_balance r added E) as [e ->]. by eexists.
  - intros Hp. unfold bind at 1. destruct (IH Hl Hp) as [e ->]. by eexists.
Qed.

Lemma scannable_new_records accs : forallb scannable (new_records accs) = true.
Proof. induction accs as [|acc accs IH]; [done|]. simpl. by rewrite IH. Qed.

(** The keys of a dict and the characters of a str are strings: the first
    loop passes them without adding an id, or raises. *)
Lemma scan_records_strings items ids ids' :
  Forall (fun r => ∃ s, r = JStr s) items →
  scan_records items ids = Ok ids' → ids' = ids.
Proof.
  intros H. revert ids. induction H as [|r items [s ->] _ IH]; intros ids.
  - by intros [= ->].
  - cbn [scan_records]. unfold scan_record at 1, contains.
    destruct (str_contains "Account" s); [done|]. apply IH.
Qed.

Lemma iter_not_list records items :
  iter records = Ok items →
  (∃ l, records = JArr l ∧ items = l) ∨
  (∀ x, append records x = Raise AttributeError) ∧
  Forall (fun r => ∃ s, r = JStr s) items.
Proof.
  destruct records as [| | | |s|l|d]; try discriminate; intros [= <-].
  - right. split; [done|]. induction s; constructor; eauto.
  - left. by eexists.
  - right. split; [done|]. induction d; constructor; eauto.
Qed.

Lemma add_accounts_not_list records w :
  (∀ x, append records x = Raise AttributeError) →
  ∃ w', add_accounts NEW_ACCOUNTS ∅ records 0 w = (Raise AttributeError, w').
Proof.
  intros Happ. unfold NEW_ACCOUNTS. cbn [add_accounts].
  rewrite bool_decide_eq_false_2 by set_solver.
  unfold bind at 1, print at 1, bind at 1, lift at 1. rewrite Happ. by eexists.
Qed.

(** A successful call was given a runnable document. *)
Lemma update_genesis_Ok_runnable path w data w' :
  files w !! path = Some (Doc data) →
  update_genesis path w = (Ok tt, w') →
  runnable data = true.
Proof.
  intros Hfile. unfold update_genesis, bind at 1, path_exists.
  rewrite bool_decide_eq_true_2 by by rewrite Hfile.
  cbn [negb]. unfold bind at 1, print at 1, bind at 1, json_load.
  cbn [files stdout]. rewrite Hfile.
  unfold bind at 1, lift at 1, getitem.
  destruct data as [| | | | | |d]; try discriminate.
  cbn [runnable]. destruct (dict_get "records" d) as [records|]; [|discriminate].
  unfold bind at 1, lift at 1.
  destruct (iter records) as [items|] eqn:Hiter; [|discriminate].
  destruct (iter_not_list _ _ Hiter) as [(l & -> & ->)|[Happ Hstr]].
  - unfold bind at 1, lift at 1.
    destruct (forallb scannable l) eqn:Hl.
    2:{ by destruct (scan_records_unscannable l ∅ Hl) as [e ->]. }
    rewrite (scan_records_scannable _ _ Hl). unfold bind at 1.
    rewrite (add_accounts_spec l _ _ _ _ _ (existing_ids_spec l)).
    cbn [files stdout]. fold (missing l).
    unfold deduct_treasury, bind at 1, bind at 1, lift at 1, iter, bind at 1.
    destruct (payable l) eqn:Hp; [done|].
    edestruct (deduct_loop_unpayable (l ++ new_records (missing l))) as [e ->];
      [| |discriminate].
    + by rewrite forallb_app, Hl, scannable_new_records.
    + unfold payable.
      by rewrite treasury_app_no_near
        by apply is_near_new_records, missing_not_near.
  - unfold bind at 1, lift at 1.
    destruct (scan_records items ∅) as [ids|] eqn:Hscan; [|discriminate].
    apply (scan_records_strings _ _ _ Hstr) in Hscan as ->.
    unfold bind at 1.
    by edestruct (add_accounts_not_list records) as [w1 ->].
Qed.

Lemma update_genesis_runnable path w data :
  files w !! path = Some (Doc data) →
  runnable data = true →
  update_genesis path w =
    (Ok tt, World (<[path := Doc (patched data)]> (files w))
                  (stdout w ++ run_log path data)).
Proof.
  intros Hfile Hrun. destruct data as [| | | | | |d]; try discriminate.
  cbn [runnable] in Hrun.
  destruct (dict_get "records" d) as [[| | | | |l|]|] eqn:Hrec; try discriminate.
  apply andb_prop in Hrun as [Hl Hp].
  unfold update_genesis, bind at 1, path_exists.
  rewrite bool_decide_eq_true_2 by by rewrite Hfile.
  cbn [negb]. unfold bind at 1, print at 1, bind at 1, json_load.
  cbn [files stdout]. rewrite Hfile.
  unfold bind at 1, lift at 1, getitem. rewrite Hrec.
  unfold bind at 1, lift at 1, iter.
  unfold bind at 1, lift at 1. rewrite (scan_records_scannable _ _ Hl).
  unfold bind at 1.
  rewrite (add_accounts_spec l _ _ _ _ _ (existing_ids_spec l)).
  cbn [files stdout]. fold (missing l).
  unfold deduct_treasury, bind at 1, bind at 1, lift at 1, iter, bind at 1.
  rewrite deduct_loop_payable.
  2:{ by rewrite forallb_app, Hl, scannable_new_records. }
  2:{ unfold payable.
      by rewrite treasury_app_no_near
        by apply is_near_new_records, missing_not_near. }
  cbn [files stdout]. unfold ret, bind at 1, json_dump, print.
  cbn [files stdout].
  rewrite existsb_app, is_near_new_records, orb_false_r
    by apply missing_not_near.
  rewrite adjust_app by apply is_near_new_records, missing_not_near.
  rewrite Z.add_0_l. fold (handed_out l).
  unfold patched, run_log. cbn [records_of]. rewrite Hrec.
  by rewrite <- !app_assoc.
Qed.



End Runnable.

(** ** The whole script *)

Section Main.
Implicit Types (w : world) (paths : list string).

Lemma update_genesis_absent path w :
  files w !! path = None →
  update_genesis path w =
    (Ok tt, World (files w)
                  (stdout w ++ ["Skipping " +:+ path +:+ " (not found)"])).
Proof.
  intros H. unfold update_genesis, bind, path_exists.
  rewrite bool_decide_eq_false_2; [done|]. rewrite H. by intros [? [=]].
Qed.

Lemma run_paths_absent paths w :
  (∀ p, p ∈ paths → files w !! p = None) →
  run_paths paths w =
    (Ok tt,
     World (files w)
           (stdout w ++ map (fun p => "Skipping " +:+ p +:+ " (not found)") paths)).
Proof.
  revert w. induction paths as [|p paths IH]; intros w H; cbn [run_paths map].
  - unfold ret. rewrite app_nil_r. by destruct w.
  - unfold bind. rewrite update_genesis_absent by (apply H; left).
    rewrite IH by (intros q Hq; apply H; by right).
    cbn [files stdout]. by rewrite <- app_assoc.
Qed.

(** Files that are all well-formed documents are all patched. *)
Lemma run_paths_wf paths w :
  (∀ p c, p ∈ paths → files w !! p = Some c →
          ∃ data, c = Doc data ∧ wf_doc data = true) →
  ∃ w', run_paths paths w = (Ok tt, w') ∧
        ∀ q, files w' !! q =
             if bool_decide (q ∈ paths) then patch_file <$> files w !! q
             else files w !! q.
Proof.
  revert w. induction paths as [|p paths IH]; intros w H; cbn [run_paths].
  - exists w. split; [done|]. intros q. by rewrite bool_decide_eq_false_2 by set_solver.
  - unfold bind. destruct (files w !! p) as [c|] eqn:Hp.
    + destruct (H p c) as (data & -> & Hwf); [by left | done |].
      rewrite (update_genesis_wf _ _ _ Hp Hwf).
      set (w1 := World _ _).
      destruct (IH w1) as (w' & Hrun & Hfiles).
      { intros q c Hq. subst w1. cbn [files].
        destruct (decide (q = p)) as [->|Hne].
        - rewrite lookup_insert_eq. intros [= <-]. eexists.
          split; [done | by apply wf_doc_patched].
        - rewrite lookup_insert_ne by done. apply H. by right. }
      exists w'. split; [done|]. intros q. rewrite Hfiles. subst w1. cbn [files].
      destruct (decide (q = p)) as [->|Hne].
      * rewrite lookup_insert_eq, Hp.
        rewrite (bool_decide_eq_true_2 (p ∈ p :: paths)) by by left.
        case_bool_decide; [|done]. simpl. by rewrite patched_patched.
      * rewrite lookup_insert_ne by done.
        by rewrite (bool_decide_ext (q ∈ p :: paths) (q ∈ paths)) by set_solver.
    + rewrite (update_genesis_absent _ _ Hp). set (w1 := World _ _).
      destruct (IH w1) as (w' & Hrun & Hfiles).
      { intros q c Hq. subst w1. cbn [files]. apply H. by right. }
      exists w'. split; [done|]. intros q. rewrite Hfiles. subst w1. cbn [files].
      destruct (decide (q = p)) as [->|Hne].
      * rewrite Hp. by repeat case_bool_decide.
      * by rewrite (bool_decide_ext (q ∈ p :: paths) (q ∈ paths)) by set_solver.
Qed.

(** X4: when none of the four configured files exists, the script ends
    without an exception, leaves the file system as it is and prints one
    "Skipping" line for each path, in the order of the list. *)
Theorem main_nothing_to_do w :
  (∀ p, p ∈ GENESIS_PATHS → files w !! p = None) →
  main w =
    (Ok tt,
     World (files w)
           (stdout w ++
            map (fun p => "Skipping " +:+ p +:+ " (not found)") GENESIS_PATHS)).
Proof. apply run_paths_absent. Qed.

Lemma main_nothing_to_do_witness :
  main (World {[ "/tmp/notes.txt" := NotJson ]} []) =
    (Ok tt,
     World {[ "/tmp/notes.txt" := NotJson ]}
       [ "Skipping /home/ubuntu/.near/localnet/node0/genesis.json (not found)";
         "Skipping /home/ubuntu/.near/localnet/node1/genesis.json (not found)";
         "Skipping /home/ubuntu/.near/localnet/node2/genesis.json (not found)";
         "Skipping /home/ubuntu/.near/localnet/node3/genesis.json (not found)" ]).
Proof.
  refine (main_nothing_to_do (World {[ "/tmp/notes.txt" := NotJson ]} []) _).
  intros p Hp. unfold GENESIS_PATHS in Hp.
  repeat (apply elem_of_cons in Hp as [->|Hp]; [reflexivity|]).
  by apply elem_of_nil in Hp.
Defined.

(** X5: when every configured file that exists holds a well-formed
    document, the script ends without an exception, each configured file
    that exists holds its patched document, and every other file is as it
    was. *)
Theorem main_patches_every_file w :
  (∀ p c, p ∈ GENESIS_PATHS → files w !! p = Some c →
          ∃ data, c = Doc data ∧ wf_doc data = true) →
  ∃ w', main w = (Ok tt, w') ∧
        (∀ p, p ∈ GENESIS_PATHS → files w' !! p = patch_file <$> files w !! p) ∧
        (∀ q, q ∉ GENESIS_PATHS → files w' !! q = files w !! q).
Proof.
  intros H. destruct (run_paths_wf GENESIS_PATHS w H) as (w' & Hrun & Hfiles).
  exists w'. split; [done|]. split.
  - intros p Hp. by rewrite Hfiles, bool_decide_eq_true_2.
  - intros q Hq. by rewrite Hfiles, bool_decide_eq_false_2.
Qed.

Lemma full_world_wf p c :
  p ∈ GENESIS_PATHS → files full_world !! p = Some c →
  ∃ data, c = Doc data ∧ wf_doc data = true.
Proof.
  intros Hp. unfold GENESIS_PATHS in Hp.
  repeat (apply elem_of_cons in Hp as [->|Hp];
          [vm_compute; intros [= <-]; by eexists|]).
  by apply elem_of_nil in Hp.
Defined.

Lemma main_patches_every_file_witness :
  ∃ w', main full_world = (Ok tt, w') ∧
        (∀ p, p ∈ GENESIS_PATHS →
              files w' !! p = patch_file <$> files full_world !! p) ∧
        (∀ q, q ∉ GENESIS_PATHS → files w' !! q = files full_world !! q).
Proof. apply (main_patches_every_file full_world), full_world_wf. Defined.

(** X6: when every configured file that exists holds a well-formed
    document, running the script a second time leaves the file system as
    the first run left it. *)
Theorem main_idempotent w :
  (∀ p c, p ∈ GENESIS_PATHS → files w !! p = Some c →
          ∃ data, c = Doc data ∧ wf_doc data = true) →
  ∃ w1 w2, main w = (Ok tt, w1) ∧ main w1 = (Ok tt, w2) ∧ files w2 = files w1.
Proof.
  intros H. destruct (run_paths_wf GENESIS_PATHS w H) as (w1 & Hrun1 & Hf1).
  assert (∀ p c, p ∈ GENESIS_PATHS → files w1 !! p = Some c →
                 ∃ data, c = Doc data ∧ wf_doc data = true) as H1.
  { intros p c Hp. rewrite Hf1, bool_decide_eq_true_2 by done.
    destruct (files w !! p) as [c0|] eqn:E; [|done].
    destruct (H p c0 Hp E) as (data & -> & Hwf). intros [= <-].
    eexists. split; [done | by apply wf_doc_patched]. }
  destruct (run_paths_wf GENESIS_PATHS w1 H1) as (w2 & Hrun2 & Hf2).
  exists w1, w2. split; [done|]. split; [done|].
  apply map_eq. intros q. rewrite Hf2. case_bool_decide as Hq; [|done].
  destruct (files w1 !! q) as [c|] eqn:E; [|done].
  destruct (H1 q c Hq E) as (data1 & -> & _). revert E.
  rewrite Hf1, bool_decide_eq_true_2 by done.
  destruct (files w !! q) as [c0|] eqn:E0; [|done].
  destruct (H q c0 Hq E0) as (data & -> & Hwf). intros [= <-].
  simpl. by rewrite patched_patched.
Qed.

Lemma main_idempotent_witness :
  ∃ w1 w2,
    main full_world = (Ok tt, w1) ∧ main w1 = (Ok tt, w2) ∧ files w2 = files w1.
Proof. apply (main_idempotent full_world), full_world_wf. Defined.

End Main.

(** ** Balances, amounts and access keys *)

Section Supply.
Implicit Types (w : world) (path : string) (data : json) (l : list json)
  (added : Z).

Lemma total_balance_app l l' :
  total_balance (l ++ l') = total_balance l + total_balance l'.
Proof.
  induction l as [|r l IH]; [done|]. cbn [app total_balance foldr].
  fold (total_balance (l ++ l')). fold (total_balance l). rewrite IH. lia.
Qed.

Lemma total_balance_new_records accs :
  total_balance (new_records accs) = Z.of_nat (length accs) * BALANCE.
Proof.
  induction accs as [|acc accs IH]; [done|].
  change (new_records (acc :: accs))
    with ([account_record acc; access_key_record acc] ++ new_records accs).
  rewrite total_balance_app, IH.
  change (total_balance [account_record acc; access_key_record acc])
    with (BALANCE + (0 + 0)).
  cbn [length]. lia.
Qed.

Lemma total_balance_adjust added l i r :
  forallb wf_record l = true →
  treasury l = Some (i, r) →
  total_balance (adjust added l) = total_balance l - added.
Proof.
  revert i r. induction l as [|r' l IH]; intros i r Hwf; [done|].
  apply andb_prop in Hwf as [Hr Hl].
  rewrite treasury_cons. cbn [adjust]. destruct (is_near r') eqn:Hn.
  - intros _. cbn [total_balance foldr]. fold (total_balance l).
    destruct (wf_account_balance r' "near" Hr (is_near_account _ Hn)) as [a Ha].
    rewrite (balance_adjust_record _ _ _ Ha), Ha. simpl. lia.
  - destruct (treasury l) as [[j r1]|] eqn:Ht; [|done]. intros _.
    cbn [total_balance foldr]. fold (total_balance (adjust added l)).
    fold (total_balance l). rewrite (IH j r1 Hl eq_refl). lia.
Qed.

(** X7: on a well-formed document with a treasury record the sum of the
    balances of all records is the same before and after the run: what the
    new accounts receive is what the treasury loses.  Without a treasury
    record the sum grows by 10000000000000000000000000 for each added
    account. *)
Theorem total_supply path w data :
  files w !! path = Some (Doc data) →
  wf_doc data = true →
  ∃ w' data',
    update_genesis path w = (Ok tt, w') ∧
    files w' !! path = Some (Doc data') ∧
    total_balance (records_of data') =
      match treasury (records_of data) with
      | Some _ => total_balance (records_of data)
      | None =>
          total_balance (records_of data) +
          Z.of_nat (length (missing (records_of data))) * 10000000000000000000000000
      end.
Proof.
  intros Hfile Hwf. eexists _, (patched data).
  split; [by apply update_genesis_wf|]. split; [apply lookup_insert_eq|].
  rewrite records_of_patched, total_balance_app, total_balance_new_records by done.
  destruct (wf_doc_inv _ Hwf) as (d & l & -> & Hrec & Hl).
  assert (records_of (JObj d) = l) as -> by (simpl; by rewrite Hrec).
  destruct (treasury l) as [[i r]|] eqn:Ht.
  - rewrite (total_balance_adjust _ _ _ _ Hl Ht). unfold handed_out. lia.
  - by rewrite adjust_no_near by by apply treasury_None.
Qed.

Lemma total_supply_witness :
  (∃ w' data',
     update_genesis (node "0") sample_world = (Ok tt, w') ∧
     files w' !! node "0" = Some (Doc data') ∧
     total_balance (records_of data') = 1010000000000000000000000000) ∧
  (∃ w' data',
     update_genesis (node "3") full_world = (Ok tt, w') ∧
     files w' !! node "3" = Some (Doc data') ∧
     total_balance (records_of data') = 1030000000000000000000000000).
Proof.
  split.
  - apply (total_supply (node "0") sample_world sample_doc); reflexivity.
  - apply (total_supply (node "3") full_world no_treasury_doc); reflexivity.
Defined.

Lemma adjust_insert added l i r :
  treasury l = Some (i, r) → adjust added l = <[i := adjust_record added r]> l.
Proof.
  revert i. induction l as [|r' l IH]; intros i; [done|].
  rewrite treasury_cons. cbn [adjust]. destruct (is_near r').
  - by intros [= <- <-].
  - destruct (treasury l) as [[j r1]|]; [|done]. simpl. intros [= <- <-].
    by rewrite (IH j eq_refl).
Qed.

Lemma with_records_same d l :
  dict_get "records" d = Some (JArr l) → with_records (JObj d) (JArr l) = JObj d.
Proof. intros H. simpl. by rewrite dict_set_same. Qed.

(** X8: on a well-formed document that already has every configured
    account, the run still rewrites the amount of the treasury record, as
    str writes the number that int read.  The file is left identical
    exactly when the amount was already written that way. *)
Theorem rerun_rewrites_amount path w data i r s :
  files w !! path = Some (Doc data) →
  wf_doc data = true →
  missing (records_of data) = [] →
  treasury (records_of data) = Some (i, r) →
  amount_of r = Some (JStr s) →
  ∃ n w' data',
    int_of_str s = Some n ∧
    update_genesis path w = (Ok tt, w') ∧
    files w' !! path = Some (Doc data') ∧
    records_of data' = <[i := with_amount r (JStr (py_str n))]> (records_of data) ∧
    (data' = data ↔ s = py_str n).
Proof.
  intros Hfile Hwf Hmiss Ht Hamt.
  destruct (wf_doc_inv _ Hwf) as (d & l & -> & Hrec & Hl).
  assert (records_of (JObj d) = l) as Hrecs by (simpl; by rewrite Hrec).
  rewrite Hrecs in *.
  pose proof (treasury_lookup _ _ _ Ht) as Hi.
  destruct (wf_account_balance r "near") as [n Hn];
    [by eapply forallb_lookup | by eapply is_near_account, treasury_is_near |].
  assert (int_of_str s = Some n) as Hs.
  { revert Hn. unfold balance. rewrite Hamt. simpl.
    by destruct (int_of_str s); intros [= ->]. }
  assert (patched (JObj d) =
          with_records (JObj d)
            (JArr (<[i := with_amount r (JStr (py_str n))]> l))) as Hp.
  { unfold patched, handed_out. rewrite Hrecs, Hmiss.
    cbn [length new_records flat_map]. rewrite app_nil_r, Z.mul_0_l.
    rewrite (adjust_insert _ _ _ _ Ht). unfold adjust_record.
    by rewrite Hn, Z.sub_0_r. }
  exists n, (World (<[path := Doc (patched (JObj d))]> (files w))
                   (stdout w ++ run_log path (JObj d))), (patched (JObj d)).
  split; [done|]. split; [by apply update_genesis_wf|].
  split; [apply lookup_insert_eq|].
  split; [by rewrite Hp, records_of_with_records|].
  rewrite Hp. split.
  - intros Heq. apply (f_equal records_of) in Heq.
    rewrite records_of_with_records, Hrecs in Heq.
    apply (f_equal (fun k => k !! i)) in Heq.
    rewrite list_lookup_insert_eq, Hi in Heq by by eapply lookup_lt_Some.
    injection Heq as Heq. apply (f_equal amount_of) in Heq.
    rewrite amount_of_with_amount, Hamt in Heq by by rewrite Hamt.
    congruence.
  - intros ->. rewrite (with_amount_same _ _ Hamt).
    rewrite list_insert_id by done. by apply with_records_same.
Qed.

Lemma rerun_rewrites_amount_witness :
  ∃ n w' data',
    int_of_str "0042" = Some n ∧
    update_genesis (node "2") full_world = (Ok tt, w') ∧
    files w' !! node "2" = Some (Doc data') ∧
    records_of data' =
      <[3%nat := with_amount (account_of "near" "0042") (JStr (py_str n))]>
        (records_of padded_doc) ∧
    (data' = padded_doc ↔ "0042" = py_str n).
Proof.
  apply (rerun_rewrites_amount (node "2") full_world padded_doc 3
           (account_of "near" "0042") "0042"); reflexivity.
Defined.

Lemma access_key_id_of_adjust_record added r :
  access_key_id_of (adjust_record added r) = access_key_id_of r.
Proof.
  unfold adjust_record. destruct (balance r); [|done].
  destruct r as [| | | | | |dr]; try done. simpl.
  destruct (dict_get "Account" dr) as [[| | | | | |da]|]; try done.
  destruct (dict_get "account" da) as [[| | | | | |dacc]|]; try done.
  simpl. by rewrite dict_get_set_ne.
Qed.

Lemma access_key_ids_adjust added l :
  access_key_ids (adjust added l) = access_key_ids l.
Proof.
  induction l as [|r l IH]; [done|]. cbn [adjust]. unfold access_key_ids in *.
  destruct (is_near r); cbn [omap list_omap].
  - by rewrite access_key_id_of_adjust_record.
  - by rewrite IH.
Qed.

Lemma access_key_ids_new_records accs :
  access_key_ids (new_records accs) = map acc_id accs.
Proof. induction accs as [|acc accs IH]; [done|]. simpl. by rewrite <- IH. Qed.

(** X9: the run never looks at AccessKey records.  The AccessKey records of
    the output are those of the input followed by one for each added
    account: an access key that the input already has for an added account
    is there twice afterwards, and a configured account that the input has
    without an access key still has none. *)
Theorem access_keys_not_consulted path w data :
  files w !! path = Some (Doc data) →
  wf_doc data = true →
  ∃ w' data',
    update_genesis path w = (Ok tt, w') ∧
    files w' !! path = Some (Doc data') ∧
    access_key_ids (records_of data') =
      access_key_ids (records_of data) ++ map acc_id (missing (records_of data)) ∧
    (∀ acc, acc ∈ missing (records_of data) →
            acc_id acc ∈ access_key_ids (records_of data) →
            ¬ NoDup (access_key_ids (records_of data'))) ∧
    (∀ acc, acc ∈ NEW_ACCOUNTS →
            acc_id acc ∈ account_ids (records_of data) →
            acc_id acc ∉ access_key_ids (records_of data) →
            acc_id acc ∉ access_key_ids (records_of data')).
Proof.
  intros Hfile Hwf. eexists _, (patched data).
  split; [by apply update_genesis_wf|]. split; [apply lookup_insert_eq|].
  assert (access_key_ids (records_of (patched data)) =
          access_key_ids (records_of data) ++
          map acc_id (missing (records_of data))) as Heq.
  { rewrite records_of_patched by done. unfold access_key_ids at 1.
    rewrite omap_app. fold (access_key_ids (adjust (handed_out (records_of data))
                                                   (records_of data))).
    fold (access_key_ids (new_records (missing (records_of data)))).
    by rewrite access_key_ids_adjust, access_key_ids_new_records. }
  split; [done|]. rewrite Heq. split.
  - intros acc Hacc Hkey [_ [Hdisj _]]%NoDup_app.
    apply (Hdisj _ Hkey), list_elem_of_fmap. by exists acc.
  - intros acc Hacc Hin Hkey [Hk|Hk]%elem_of_app; [done|].
    apply list_elem_of_fmap in Hk as (acc' & Hid & [Hnot _]%list_elem_of_filter).
    apply Hnot. by rewrite <- Hid.
Qed.

Lemma access_keys_not_consulted_witness :
  ∃ w' data',
    update_genesis (node "0") (World {[ node "0" := Doc orphan_key_doc ]} []) =
      (Ok tt, w') ∧
    files w' !! node "0" = Some (Doc data') ∧
    access_key_ids (records_of data') =
      [ "mpc-node-0.node0";
        "mpc-node-0.node0"; "mpc-node-1.node0"; "mpc-node-2.node0" ] ∧
    (∀ acc, acc ∈ missing (records_of orphan_key_doc) →
            acc_id acc ∈ access_key_ids (records_of orphan_key_doc) →
            ¬ NoDup (access_key_ids (records_of data'))) ∧
    (∀ acc, acc ∈ NEW_ACCOUNTS →
            acc_id acc ∈ account_ids (records_of orphan_key_doc) →
            acc_id acc ∉ access_key_ids (records_of orphan_key_doc) →
            acc_id acc ∉ access_key_ids (records_of data')).
Proof.
  apply (access_keys_not_consulted (node "0")
           (World {[ node "0" := Doc orphan_key_doc ]} []) orphan_key_doc);
    reflexivity.
Defined.

End Supply.

(** ** Running again after a successful run *)

Section Rerun.
Implicit Types (w : world) (path : string) (data : json) (l : list json)
  (added : Z).

Lemma scannable_adjust_record added r :
  scannable r = true → scannable (adjust_record added r) = true.
Proof.
  intros Hs. unfold adjust_record. destruct (balance r); [|done].
  destruct r as [| | | | | |dr]; try done. cbn [with_amount].
  destruct (dict_get "Account" dr) as [[| | | | | |da]|] eqn:Ha; try done.
  destruct (dict_get "account" da) as [[| | | | | |dacc]|] eqn:Hacc; try done.
  cbn [scannable] in *. rewrite Ha in Hs.
  rewrite dict_get_set_eq. by rewrite dict_get_set_ne.
Qed.

Lemma scannable_adjust added l :
  forallb scannable l = true → forallb scannable (adjust added l) = true.
Proof.
  induction l as [|r l IH]; [done|]. cbn [forallb adjust].
  intros [Hr Hl]%andb_prop. destruct (is_near r); cbn [forallb].
  - by rewrite scannable_adjust_record, Hl.
  - by rewrite Hr, IH.
Qed.

Lemma payable_balance l i r :
  payable l = true → treasury l = Some (i, r) → is_Some (balance r).
Proof. unfold payable. intros H Ht. rewrite Ht in H. by apply bool_decide_eq_true in H. Qed.

Lemma payable_adjust added l new :
  existsb is_near new = false →
  payable l = true → payable (adjust added l ++ new) = true.
Proof.
  intros Hnew Hp. unfold payable. rewrite treasury_adjust by done.
  destruct (treasury l) as [[i r]|] eqn:Ht; [|done]. simpl.
  destruct (payable_balance _ _ _ Hp Ht) as [a Ha].
  apply bool_decide_eq_true. rewrite (balance_adjust_record _ _ _ Ha). by eexists.
Qed.

Lemma adjust_again_payable added l :
  payable l = true → adjust 0 (adjust added l) = adjust added l.
Proof.
  induction l as [|r l IH]; [done|]. rewrite payable_cons. cbn [adjust].
  destruct (is_near r) eqn:Hn.
  - intros Hb%bool_decide_eq_true. cbn [adjust]. unfold is_near.
    rewrite account_id_of_adjust_record. fold (is_near r). rewrite Hn.
    by rewrite adjust_record_again.
  - intros Hp. cbn [adjust]. by rewrite Hn, IH.
Qed.

Lemma missing_after l added :
  missing (adjust added l ++ new_records (missing l)) = [].
Proof.
  assert (Forall (fun acc =>
            acc_id acc ∈ account_ids (adjust added l ++ new_records (missing l)))
            NEW_ACCOUNTS) as H.
  { rewrite account_ids_app, account_ids_adjust, account_ids_new_records.
    apply Forall_forall. intros acc Hacc. apply elem_of_app.
    destruct (decide (acc_id acc ∈ account_ids l)); [by left|].
    right. apply list_elem_of_fmap. exists acc. split; [done|].
    by apply list_elem_of_filter. }
  set (l' := adjust added l ++ new_records (missing l)) in *. clearbody l'.
  unfold missing. induction H as [|acc accs Hacc _ IH]; [done|].
  by rewrite filter_cons_False by (by intros Hn).
Qed.

Lemma runnable_inv data :
  runnable data = true →
  ∃ d l, data = JObj d ∧ dict_get "records" d = Some (JArr l) ∧
         forallb scannable l = true ∧ payable l = true.
Proof.
  destruct data as [| | | | | |d]; try discriminate. simpl.
  destruct (dict_get "records" d) as [[| | | | |l|]|] eqn:E; try discriminate.
  intros [??]%andb_prop. by exists d, l.
Qed.

(** What a run writes is runnable, and a run maps it to itself. *)
Lemma runnable_patched data :
  runnable data = true →
  runnable (patched data) = true ∧ patched (patched data) = patched data.
Proof.
  intros (d & l & -> & Hrec & Hl & Hp)%runnable_inv.
  assert (records_of (JObj d) = l) as Hrecs by (simpl; by rewrite Hrec).
  assert (existsb is_near (new_records (missing l)) = false) as Hnew
    by apply is_near_new_records, missing_not_near.
  set (l' := adjust (handed_out l) l ++ new_records (missing l)).
  assert (patched (JObj d) = with_records (JObj d) (JArr l')) as Hpd
    by (unfold patched; by rewrite Hrecs).
  rewrite Hpd. split.
  - cbn [with_records runnable]. rewrite dict_get_set_eq. subst l'.
    rewrite forallb_app, scannable_adjust, scannable_new_records by done.
    by rewrite payable_adjust.
  - assert (missing l' = []) as Hm by apply missing_after.
    assert (handed_out l' = 0) as Hh by (unfold handed_out; by rewrite Hm).
    unfold patched. rewrite records_of_with_records, Hm, Hh.
    cbn [new_records flat_map]. rewrite app_nil_r. subst l'.
    rewrite adjust_app, adjust_again_payable by done.
    cbn [with_records]. by rewrite dict_set_set.
Qed.

(** X10: whenever a call of update_genesis returns without an exception,
    whatever the file held, a second call on the same path returns without
    an exception too and leaves the file system as the first call left
    it. *)
Theorem rerun_after_success path w w1 :
  update_genesis path w = (Ok tt, w1) →
  ∃ w2, update_genesis path w1 = (Ok tt, w2) ∧ files w2 = files w1.
Proof.
  intros H. destruct (files w !! path) as [[|data]|] eqn:Hfile.
  - rewrite (update_genesis_load_error _ _ NotJson JSONDecodeError) in H;
      [discriminate | done | done].
  - pose proof (update_genesis_Ok_runnable _ _ _ _ Hfile H) as Hrun.
    rewrite (update_genesis_runnable _ _ _ Hfile Hrun) in H.
    injection H as <-.
    destruct (runnable_patched _ Hrun) as [Hrun1 Hsame].
    eexists. split.
    + apply update_genesis_runnable; [apply lookup_insert_eq | done].
    + cbn [files]. rewrite Hsame. apply insert_insert_eq.
  - rewrite (update_genesis_absent _ _ Hfile) in H. injection H as <-.
    eexists. split; [by apply update_genesis_absent|]. done.
Qed.

Lemma rerun_after_success_witness :
  ∃ w2,
    update_genesis (node "0")
      (World {[ node "0" := Doc (patched loose_doc) ]}
             (run_log (node "0") loose_doc)) = (Ok tt, w2) ∧
    files w2 = {[ node "0" := Doc (patched loose_doc) ]}.
Proof.
  apply (rerun_after_success (node "0")
           (World {[ node "0" := Doc loose_doc ]} [])).
  reflexivity.
Defined.

End Rerun.

(** ** The files the script can touch *)

Section Reach.
Implicit Types (w : world) (paths : list string).

Lemma run_paths_frame paths w r w' :
  run_paths paths w = (r, w') →
  dom (files w') = dom (files w) ∧
  ∀ q, q ∉ paths → files w' !! q = files w !! q.
Proof.
  revert w. induction paths as [|p paths IH]; intros w; cbn [run_paths].
  - unfold ret. by intros [= <- <-].
  - unfold bind. destruct (update_genesis p w) as [[[]|e] w1] eqn:Hp.
    + intros [Hdom Hq]%IH.
      destruct (update_genesis_files _ _ _ _ Hp) as [Hf|(_ & Hin & data' & Hf)];
        rewrite Hf in *.
      * split; [done|]. intros q Hn. apply Hq. set_solver.
      * split.
        -- rewrite Hdom, dom_insert_L. apply elem_of_dom in Hin. set_solver.
        -- intros q Hn. rewrite Hq by set_solver.
           apply lookup_insert_ne. set_solver.
    + intros [= <- <-].
      by destruct (update_genesis_files _ _ _ _ Hp) as [->|(? & _)].
Qed.

(** X11: whatever the files hold and however the script ends, it creates
    and deletes no file, and a file that is not one of the four configured
    paths keeps its content. *)
Theorem main_touches_only_configured w r w' :
  main w = (r, w') →
  dom (files w') = dom (files w) ∧
  ∀ q, q ∉ GENESIS_PATHS → files w' !! q = files w !! q.
Proof. apply run_paths_frame. Qed.

Lemma main_touches_only_configured_witness :
  dom (files (main broken_world).2) = dom (files broken_world) ∧
  ∀ q, q ∉ GENESIS_PATHS →
       files (main broken_world).2 !! q = files broken_world !! q.
Proof.
  apply (main_touches_only_configured broken_world (main broken_world).1).
  by destruct (main broken_world).
Defined.

End Reach.
